(** * monitor-networkconnections: the connection tracker of [main.py]

    A shallow embedding of [main.py] and the properties of its state
    tracking: snapshot collection, the diff against the known connections,
    the merge, and the persistence of the known connections as JSON.

    Python values are embedded as the inductive [pyval]; dictionaries keep
    their insertion order, as Python's do.  Code that logs, touches files or
    raises runs in the monad [M], a state monad over the [world] (file
    system and log) whose results are either a value or a raised exception.
    What the program takes from outside the repository is a parameter: the
    builtin [hash] and the [str] of the socket enumerations ([PyRuntime]),
    the [json] module ([JsonLib]), and what [psutil] reports at one tick
    ([psutil_view]).  [RefJson] is a codec to compute with: it writes the
    text of [json.dump(..., indent=4)] and reads it back, with the keys of
    every dictionary turned into strings, as JSON has them. *)

From Stdlib Require Import ZArith String Ascii List Bool Lia.
From Stdlib Require Import Decimal DecimalFacts DecimalPos DecimalString DecimalZ.
Import ListNotations.

Local Open Scope string_scope.
Local Open Scope Z_scope.

(* ================================================================= *)
(** ** Python values *)

(** Keys of the dictionaries of the program: the integer returned by
    [hash] in a snapshot, a string in whatever [json.load] returns and in
    the connection details. *)
Inductive pykey : Type :=
| KInt (z : Z)
| KStr (s : string).

#[warnings="-register-all"]
Inductive pyval : Type :=
| PNone
| PBool (b : bool)
| PInt (z : Z)
| PStr (s : string)
| PList (l : list pyval)
| PDict (d : list (pykey * pyval)).

(** A dictionary: its items in insertion order.  A Python dictionary has
    no two items with the same key ([dict_wf]). *)
Definition pydict : Type := list (pykey * pyval).

Definition pykey_eqb (a b : pykey) : bool :=
  match a, b with
  | KInt x, KInt y => Z.eqb x y
  | KStr s, KStr t => String.eqb s t
  | _, _ => false
  end.

Definition dict_keys (d : pydict) : list pykey := map fst d.

Definition dict_wf (d : pydict) : Prop := NoDup (dict_keys d).

(** [d.get(k)] *)
Fixpoint dict_get (k : pykey) (d : pydict) : option pyval :=
  match d with
  | [] => None
  | (k', v) :: rest => if pykey_eqb k k' then Some v else dict_get k rest
  end.

(** [k in d] *)
Definition dict_mem (k : pykey) (d : pydict) : bool :=
  match dict_get k d with
  | Some _ => true
  | None => false
  end.

(** [d[k] = v]: an existing key keeps its place, a new one goes last. *)
Fixpoint dict_set (k : pykey) (v : pyval) (d : pydict) : pydict :=
  match d with
  | [] => [(k, v)]
  | (k', v') :: rest =>
      if pykey_eqb k k' then (k', v) :: rest else (k', v') :: dict_set k v rest
  end.

(** [d.update(other)] *)
Definition dict_update (d other : pydict) : pydict :=
  fold_left (fun acc kv => dict_set (fst kv) (snd kv) acc) other d.

(** The diff as the specification words it: the items of [current] whose
    key is not a key of [known]. *)
Definition new_entries (known current : pydict) : pydict :=
  filter (fun kv => negb (dict_mem (fst kv) known)) current.

(** No key twice, as a test. *)
Fixpoint distinct_keys (d : pydict) : bool :=
  match d with
  | [] => true
  | (k, _) :: rest => negb (dict_mem k rest) && distinct_keys rest
  end.

(** The values a JSON text stands for: every dictionary, at any depth,
    has string keys, each once. *)
Fixpoint json_native (v : pyval) : bool :=
  match v with
  | PList l => forallb json_native l
  | PDict d =>
      distinct_keys d
      && forallb (fun kv =>
                    match fst kv with
                    | KStr _ => json_native (snd kv)
                    | KInt _ => false
                    end) d
  | _ => true
  end.

(** Whether a value is a dictionary. *)
Definition is_mapping (v : pyval) : bool :=
  match v with
  | PDict _ => true
  | _ => false
  end.

(** [v[name]] for a dictionary [v] with the key [name]. *)
Definition py_item (v : pyval) (name : string) : option pyval :=
  match v with
  | PDict d => dict_get (KStr name) d
  | _ => None
  end.

(** [str(n)] for an integer. *)
Definition str_int (z : Z) : string := NilZero.string_of_int (Z.to_int z).

(** [str(x)] for an optional integer, as an f-string formats [conn.pid]. *)
Definition str_opt_int (o : option Z) : string :=
  match o with
  | Some z => str_int z
  | None => "None"
  end.

Definition py_opt_int (o : option Z) : pyval :=
  match o with
  | Some z => PInt z
  | None => PNone
  end.

(* ================================================================= *)
(** ** Exceptions, the world and the monad *)

(** The subclasses of [Exception] the program can meet. *)
Inductive error : Type :=
| FileNotFoundError
| PermissionError
| IsADirectoryError
| JSONDecodeError
| NoSuchProcess
| AccessDenied
| TypeError
| AttributeError
| ValueError
| OverflowError
| OtherError (what : string).

(** What can be raised: an [Exception], or the interrupt of the operator,
    which [except Exception] does not catch. *)
Inductive exn : Type :=
| Exception (e : error)
| KeyboardInterrupt.

Inductive result (E A : Type) : Type :=
| Ok (a : A)
| Raise (e : E).
Arguments Ok {E A} a.
Arguments Raise {E A} e.

(** *** Files *)

Inductive node : Type :=
| File (content : string) (readable writable : bool)
| Directory
| Orphan.  (* a path under a missing directory: absent, and not creatable *)

Definition fsys : Type := list (string * node).

Fixpoint fs_lookup (p : string) (fs : fsys) : option node :=
  match fs with
  | [] => None
  | (q, n) :: rest => if String.eqb p q then Some n else fs_lookup p rest
  end.

Fixpoint fs_store (p : string) (n : node) (fs : fsys) : fsys :=
  match fs with
  | [] => [(p, n)]
  | (q, m) :: rest =>
      if String.eqb p q then (q, n) :: rest else (q, m) :: fs_store p n rest
  end.

(** [os.path.exists(p)] *)
Definition os_path_exists (p : string) (fs : fsys) : bool :=
  match fs_lookup p fs with
  | Some (File _ _ _) | Some Directory => true
  | Some Orphan | None => false
  end.

(** [with open(p, 'r') as f: f.read()] *)
Definition read_file (p : string) (fs : fsys) : result error string :=
  match fs_lookup p fs with
  | Some (File s true _) => Ok s
  | Some (File _ false _) => Raise PermissionError
  | Some Directory => Raise IsADirectoryError
  | Some Orphan | None => Raise FileNotFoundError
  end.

(** [with open(p, 'w') as f: f.write(s)]: the file is created or
    truncated, then holds [s]. *)
Definition write_file (p s : string) (fs : fsys) : result error fsys :=
  match fs_lookup p fs with
  | None => Ok (fs_store p (File s true true) fs)
  | Some (File _ r true) => Ok (fs_store p (File s r true) fs)
  | Some (File _ _ false) => Raise PermissionError
  | Some Directory => Raise IsADirectoryError
  | Some Orphan => Raise FileNotFoundError
  end.

(** Whether [open(p, 'w')] succeeds. *)
Definition writable (p : string) (fs : fsys) : bool :=
  match fs_lookup p fs with
  | None | Some (File _ _ true) => true
  | Some (File _ _ false) | Some Directory | Some Orphan => false
  end.

(** The text of a file, when the path holds one. *)
Definition file_content (p : string) (fs : fsys) : option string :=
  match fs_lookup p fs with
  | Some (File s _ _) => Some s
  | _ => None
  end.

(** *** Log records *)

Inductive level : Type := DEBUG | INFO | WARNING | ERROR.

Inductive message : Type :=
| MsgDebugEnabled
| MsgNoProcessName (pid : Z) (e : error)
| MsgConnectionError (e : error)
| MsgFileNotFound (file_path : string)
| MsgDecodeError (file_path : string)
| MsgLoadError (e : error)
| MsgSaveError (file_path : string) (e : error)
| MsgNewConnection (connection_details : pyval)
| MsgWritten (output_file : string)
| MsgWriteError (output_file : string) (e : error)
| MsgNoOutputFile
| MsgNoNewConnections
| MsgExiting
| MsgUnexpected (e : error)
| MsgTerminated.

Record world : Type := mkWorld {
  fs : fsys;
  log : list (level * message)
}.

(** *** The monad *)

Definition M (A : Type) : Type := world -> result exn A * world.

Definition ret {A} (a : A) : M A := fun w => (Ok a, w).

Definition bind {A B} (m : M A) (k : A -> M B) : M B :=
  fun w =>
    match m w with
    | (Ok a, w') => k a w'
    | (Raise e, w') => (Raise e, w')
    end.

Definition raise {A} (e : exn) : M A := fun w => (Raise e, w).

(** A call that returns or raises an [Exception]. *)
Definition lift {A} (r : result error A) : M A :=
  fun w =>
    match r with
    | Ok a => (Ok a, w)
    | Raise e => (Raise (Exception e), w)
    end.

(** [try: body except ...: handler]; the handler re-raises what its
    [except] clauses do not name. *)
Definition try_except {A} (body : M A) (handler : exn -> M A) : M A :=
  fun w =>
    match body w with
    | (Ok a, w') => (Ok a, w')
    | (Raise e, w') => handler e w'
    end.

Definition logging (l : level) (m : message) : M unit :=
  fun w => (Ok tt, mkWorld (fs w) (log w ++ [(l, m)])).

Definition get_fs : M fsys := fun w => (Ok (fs w), w).

Definition put_fs (f : fsys) : M unit :=
  fun w => (Ok tt, mkWorld f (log w)).

(** The warnings that report the items of [d] as new. *)
Definition new_warnings (d : pydict) : list (level * message) :=
  map (fun kv => (WARNING, MsgNewConnection (snd kv))) d.

Declare Scope py_scope.
Delimit Scope py_scope with py.
Notation "x <- c ;; k" := (bind c (fun x => k))
  (at level 61, c at next level, right associativity) : py_scope.
Notation "c ;; k" := (bind c (fun _ => k))
  (at level 61, right associativity) : py_scope.
Local Open Scope py_scope.

(** [for x in l: s = body(s, x)] *)
Fixpoint for_each {A S} (l : list A) (body : S -> A -> M S) (s : S) : M S :=
  match l with
  | [] => ret s
  | x :: rest => s' <- body s x ;; for_each rest body s'
  end.

(** [open(p, 'r')] then [f.read()], in the monad. *)
Definition open_read (p : string) : M string :=
  f <- get_fs ;; lift (read_file p f).

(** [open(p, 'w')] then the write, in the monad. *)
Definition open_write (p s : string) : M unit :=
  f <- get_fs ;;
  f' <- lift (write_file p s f) ;;
  put_fs f'.

(* ================================================================= *)
(** ** What the program takes from outside *)

(** *** The interpreter *)

Inductive AddressFamily : Type := AF_INET | AF_INET6.
Inductive SocketKind : Type := SOCK_STREAM | SOCK_DGRAM.

(** [hash] of a string is seeded per process, [str] of an enumeration
    member depends on the interpreter's version, and the longest time
    [time.sleep] takes, in seconds, on the platform. *)
Class PyRuntime : Type := {
  hash : string -> Z;
  str_family : AddressFamily -> string;
  str_type : SocketKind -> string;
  sleep_max : Z
}.

(** *** The json module, on the values of [pyval] *)

Class JsonLib : Type := {
  (* [json.dumps(v, indent=4)] *)
  json_dumps : pyval -> string;
  (* [json.loads(s)]; [None] stands for [JSONDecodeError] *)
  json_loads : string -> option pyval
}.

(** *** psutil at one tick *)

Record addr : Type := mkAddr {
  ip : string;
  port : Z
}.

(** [psutil]'s [sconn]; an absent address is the empty tuple there. *)
Record sconn : Type := mkSconn {
  fd : Z;
  family : AddressFamily;
  type : SocketKind;
  laddr : option addr;
  raddr : option addr;
  status : string;
  pid : option Z
}.

Record psutil_view : Type := mkPsutil {
  (* [psutil.net_connections(kind='inet')] *)
  net_connections : result error (list sconn);
  (* [psutil.pid_exists(pid)] *)
  pid_exists : Z -> bool;
  (* [psutil.Process(pid).name()] *)
  Process_name : Z -> result error string
}.

(* ================================================================= *)
(** ** The program *)

Record arguments : Type := mkArgs {
  arg_interval : Z;
  arg_file : string;
  arg_debug : bool;
  arg_output : option string
}.

(** [setup_argparse]'s defaults *)
Definition default_arguments : arguments :=
  mkArgs 5 "known_connections.json" false None.

Section Program.
Context {RT : PyRuntime} {JS : JsonLib}.

(** [f"{ip}:{port}"] *)
Definition format_address (a : addr) : string :=
  ip a ++ ":" ++ str_int (port a).

(** [hash(f"{conn.pid}-{local_address}-{remote_address}-{conn.status}")] *)
Definition connection_hash
    (pid : option Z) (local_address remote_address status : string) : Z :=
  hash (str_opt_int pid ++ "-" ++ local_address ++ "-" ++ remote_address
        ++ "-" ++ status).

(** The dictionary literal of lines 51-59. *)
Definition connection_details
    (pid : option Z) (local_address remote_address status process_name
     family type : string) : pyval :=
  PDict [ (KStr "pid", py_opt_int pid);
          (KStr "local_address", PStr local_address);
          (KStr "remote_address", PStr remote_address);
          (KStr "status", PStr status);
          (KStr "process_name", PStr process_name);
          (KStr "family", PStr family);
          (KStr "type", PStr type) ].

(** Lines 39-47: the name of the owning process. *)
Definition resolve_process_name (os : psutil_view) (conn : sconn) : M string :=
  match pid conn with
  | Some p =>
      if pid_exists os p then
        try_except (lift (Process_name os p))
          (fun e =>
             match e with
             | Exception NoSuchProcess =>
                 logging WARNING (MsgNoProcessName p NoSuchProcess) ;;
                 ret "Unknown"
             | Exception AccessDenied =>
                 logging WARNING (MsgNoProcessName p AccessDenied) ;;
                 ret "Unknown"
             | _ => raise e
             end)
      else ret "System"
  | None => ret "System"
  end.

(** Lines 32-61: the body of the loop over the raw records. *)
Definition record_connection (os : psutil_view)
    (connections : pydict) (conn : sconn) : M pydict :=
  try_except
    (match laddr conn, raddr conn with
     | Some la, Some ra =>
         let local_address := format_address la in
         let remote_address := format_address ra in
         process_name <- resolve_process_name os conn ;;
         let h := connection_hash (pid conn) local_address remote_address
                    (status conn) in
         ret (dict_set (KInt h)
                (connection_details (pid conn) local_address remote_address
                   (status conn) process_name
                   (str_family (family conn)) (str_type (type conn)))
                connections)
     | _, _ => ret connections
     end)
    (fun e =>
       match e with
       | Exception e' => logging ERROR (MsgConnectionError e') ;; ret connections
       | KeyboardInterrupt => raise e
       end).

Definition get_current_connections (os : psutil_view) : M pydict :=
  conns <- lift (net_connections os) ;;
  for_each conns (record_connection os) [].

(** The fingerprint lines 34-36 and 50 give a raw record, when both its
    addresses are there. *)
Definition fingerprint (conn : sconn) : option Z :=
  match laddr conn, raddr conn with
  | Some la, Some ra =>
      Some (connection_hash (pid conn) (format_address la)
              (format_address ra) (status conn))
  | _, _ => None
  end.

(** The details lines 51-59 store for it under a process name. *)
Definition details (conn : sconn) (process_name : string) : option pyval :=
  match laddr conn, raddr conn with
  | Some la, Some ra =>
      Some (connection_details (pid conn) (format_address la)
              (format_address ra) (status conn) process_name
              (str_family (family conn)) (str_type (type conn)))
  | _, _ => None
  end.

(** The name lines 39-47 settle on; none when the lookup raises
    something else. *)
Definition settled_name (os : psutil_view) (conn : sconn) : option string :=
  match pid conn with
  | Some p =>
      if pid_exists os p then
        match Process_name os p with
        | Ok n => Some n
        | Raise NoSuchProcess | Raise AccessDenied => Some "Unknown"
        | Raise _ => None
        end
      else Some "System"
  | None => Some "System"
  end.

(** The item a raw record adds to the snapshot, if any. *)
Definition snapshot_item (os : psutil_view) (conn : sconn)
    : option (pykey * pyval) :=
  match fingerprint conn, settled_name os conn with
  | Some h, Some n =>
      match details conn n with
      | Some v => Some (KInt h, v)
      | None => None
      end
  | _, _ => None
  end.

(** The snapshot after one more raw record. *)
Definition add_item (os : psutil_view) (acc : pydict) (c : sconn) : pydict :=
  match snapshot_item os c with
  | Some (k, v) => dict_set k v acc
  | None => acc
  end.

Definition load_known_connections (file_path : string) : M pyval :=
  try_except
    (f <- get_fs ;;
     if os_path_exists file_path f then
       s <- open_read file_path ;;
       match json_loads s with
       | Some v => ret v
       | None => raise (Exception JSONDecodeError)
       end
     else ret (PDict []))
    (fun e =>
       match e with
       | Exception FileNotFoundError =>
           logging WARNING (MsgFileNotFound file_path) ;; ret (PDict [])
       | Exception JSONDecodeError =>
           logging ERROR (MsgDecodeError file_path) ;; ret (PDict [])
       | Exception e' =>
           logging ERROR (MsgLoadError e') ;; ret (PDict [])
       | KeyboardInterrupt => raise e
       end).

Definition save_known_connections (connections : pyval) (file_path : string)
    : M unit :=
  try_except
    (open_write file_path (json_dumps connections))
    (fun e =>
       match e with
       | Exception e' => logging ERROR (MsgSaveError file_path e')
       | KeyboardInterrupt => raise e
       end).

(** [x == y] between a key and an item of a list. *)
Definition key_eq_val (k : pykey) (v : pyval) : bool :=
  match k, v with
  | KInt z, PInt z' => Z.eqb z z'
  | KInt z, PBool b => Z.eqb z (if b then 1 else 0)
  | KStr s, PStr s' => String.eqb s s'
  | _, _ => false
  end.

(** [k in known]: the known connections are whatever the file held. *)
Definition py_contains (known : pyval) (k : pykey) : result error bool :=
  match known with
  | PDict d => Ok (dict_mem k d)
  | PList l => Ok (existsb (key_eq_val k) l)
  | PStr s =>
      match k with
      | KStr t => Ok (match index 0 t s with Some _ => true | None => false end)
      | KInt _ => Raise TypeError
      end
  | PNone | PBool _ | PInt _ => Raise TypeError
  end.

(** [known.update(current)] *)
Definition py_update (known : pyval) (current : pydict)
    : result error pyval :=
  match known with
  | PDict d => Ok (PDict (dict_update d current))
  | _ => Raise AttributeError
  end.

(** Truth of [output_file] in [if output_file:]. *)
Definition configured (output_file : option string) : option string :=
  match output_file with
  | Some "" | None => None
  | Some p => Some p
  end.

(** Lines 112-114: the body of the loop over [current.items()]. *)
Definition note_if_new (known_connections : pyval)
    (new_connections : pydict) (item : pykey * pyval) : M pydict :=
  let (connection_hash, connection_details) := item in
  present <- lift (py_contains known_connections connection_hash) ;;
  if negb present then
    logging WARNING (MsgNewConnection connection_details) ;;
    ret (dict_set connection_hash connection_details new_connections)
  else ret new_connections.

(** Lines 116-127: where the new connections go. *)
Definition alert (new_connections : pydict) (output_file : option string)
    : M unit :=
  match new_connections with
  | _ :: _ =>
      match configured output_file with
      | Some p =>
          try_except
            (open_write p (json_dumps (PDict new_connections)) ;;
             logging INFO (MsgWritten p))
            (fun e =>
               match e with
               | Exception e' => logging ERROR (MsgWriteError p e')
               | KeyboardInterrupt => raise e
               end)
      | None => logging INFO MsgNoOutputFile
      end
  | [] => logging INFO MsgNoNewConnections
  end.

Definition check_for_new_connections (known_connections : pyval)
    (current_connections : pydict) (output_file : option string) : M pydict :=
  new_connections <-
    for_each current_connections (note_if_new known_connections) [] ;;
  alert new_connections output_file ;;
  ret new_connections.

(** What one pass of the loop of [main] computes. *)
Record tick_result : Type := mkTick {
  tick_current : pydict;
  tick_new : pydict;
  tick_known : pyval
}.

(** Lines 149-155: one pass of the loop, up to the save.  The sleep of
    line 157 is [time_sleep], in the loop. *)
Definition tick (args : arguments) (os : psutil_view)
    (known_connections : pyval) : M tick_result :=
  current_connections <- get_current_connections os ;;
  new_connections <-
    check_for_new_connections known_connections current_connections
      (arg_output args) ;;
  known' <- lift (py_update known_connections current_connections) ;;
  save_known_connections known' (arg_file args) ;;
  ret (mkTick current_connections new_connections known').

(** [time.sleep(secs)] for an integer: a time the clock cannot hold
    raises OverflowError, a negative one ValueError; the wait itself
    changes nothing. *)
Definition time_sleep (secs : Z) : M unit :=
  if Z.ltb sleep_max (Z.abs secs) then raise (Exception OverflowError)
  else if Z.ltb secs 0 then raise (Exception ValueError)
  else ret tt.

(** The arguments under which the sleep of every pass returns. *)
Definition sleeps (args : arguments) : Prop :=
  0 <= arg_interval args <= sleep_max.

(** The [while True] loop of lines 148-157: [ticks] lists what psutil
    reports at each pass until the interrupt arrives, during the sleep
    after the last one.  The loop never returns; beside the way it ends
    and the world it leaves, the function gives the passes that reached
    their save, in order, each with the known connections its diff was
    taken against. *)
Fixpoint polling_loop (args : arguments) (ticks : list psutil_view)
    (known_connections : pyval) (w : world)
    : list (pyval * tick_result) * (result exn unit * world) :=
  match ticks with
  | [] => ([], raise KeyboardInterrupt w)
  | os :: rest =>
      match tick args os known_connections w with
      | (Raise e, w1) => ([], (Raise e, w1))
      | (Ok t, w1) =>
          match time_sleep (arg_interval args) w1 with
          | (Raise e, w2) => ([(known_connections, t)], (Raise e, w2))
          | (Ok _, w2) =>
              let (passes, outcome) :=
                polling_loop args rest (tick_known t) w2 in
              ((known_connections, t) :: passes, outcome)
          end
      end
  end.

Definition main (args : arguments) (ticks : list psutil_view) : M unit :=
  (if arg_debug args then logging DEBUG MsgDebugEnabled else ret tt) ;;
  known_connections <- load_known_connections (arg_file args) ;;
  try_except
    (fun w => snd (polling_loop args ticks known_connections w))
    (fun e =>
       match e with
       | KeyboardInterrupt => logging INFO MsgExiting
       | Exception e' => logging ERROR (MsgUnexpected e')
       end) ;;
  logging INFO MsgTerminated.

(** The snapshot [get_current_connections] returns for [os]. *)
Definition snapshot_of (os : psutil_view) : pydict :=
  match net_connections os with
  | Ok conns => fold_left (add_item os) conns []
  | Raise _ => []
  end.

(** The known connections after the passes [ticks], from [d] on. *)
Definition known_after (d : pydict) (ticks : list psutil_view) : pydict :=
  fold_left (fun known os => dict_update known (snapshot_of os)) ticks d.

End Program.

(* ================================================================= *)
(** ** A reference json codec

    The text [json.dump(..., indent=4)] writes for the values of [pyval],
    and a reader of JSON text.  The reader covers the JSON the monitor
    writes: numbers are integers, and a [\u] escape names a character
    below 256. *)

Module RefJson.

Local Open Scope char_scope.

Definition dquote : ascii := "034".
Definition newline : ascii := "010".

Definition hex_digit (n : N) : ascii :=
  ascii_of_N (if N.ltb n 10 then 48 + n else 87 + n).

(** [json.encoder.py_encode_basestring_ascii], one character. *)
Definition escape_char (c : ascii) : string :=
  let n := N_of_ascii c in
  if N.eqb n 34 then String "\" (String dquote EmptyString)
  else if N.eqb n 92 then String "\" (String "\" EmptyString)
  else if N.eqb n 8 then String "\" (String "b" EmptyString)
  else if N.eqb n 12 then String "\" (String "f" EmptyString)
  else if N.eqb n 10 then String "\" (String "n" EmptyString)
  else if N.eqb n 13 then String "\" (String "r" EmptyString)
  else if N.eqb n 9 then String "\" (String "t" EmptyString)
  else if (N.leb 32 n && N.leb n 126)%bool then String c EmptyString
  else String "\" (String "u" (String "0" (String "0"
         (String (hex_digit (N.div n 16))
            (String (hex_digit (N.modulo n 16)) EmptyString))))).

Fixpoint escape (s : string) : string :=
  match s with
  | EmptyString => EmptyString
  | String c rest => (escape_char c ++ escape rest)%string
  end.

Definition quoted (s : string) : string :=
  String dquote (escape s ++ String dquote EmptyString)%string.

(** The text of a key: [json] writes an integer key as its decimal. *)
Definition key_text (k : pykey) : string :=
  match k with
  | KInt z => str_int z
  | KStr s => s
  end.

Fixpoint spaces (n : nat) : string :=
  match n with
  | O => EmptyString
  | S m => String " " (spaces m)
  end.

(** A line break and the indentation of nesting depth [depth]. *)
Definition break (depth : nat) : string :=
  String newline (spaces (4 * depth)).

Fixpoint join (sep : string) (l : list string) : string :=
  match l with
  | [] => EmptyString
  | [x] => x
  | x :: rest => (x ++ sep ++ join sep rest)%string
  end.

Fixpoint render (depth : nat) (v : pyval) : string :=
  match v with
  | PNone => "null"%string
  | PBool true => "true"%string
  | PBool false => "false"%string
  | PInt z => str_int z
  | PStr s => quoted s
  | PList [] => "[]"%string
  | PList l =>
      ("[" ++ break (S depth)
       ++ join ("," ++ break (S depth)) (map (render (S depth)) l)
       ++ break depth ++ "]")%string
  | PDict [] => "{}"%string
  | PDict d =>
      ("{" ++ break (S depth)
       ++ join ("," ++ break (S depth))
            (map (fun kv => quoted (key_text (fst kv)) ++ ": "
                            ++ render (S depth) (snd kv)) d)
       ++ break depth ++ "}")%string
  end.

Definition dumps (v : pyval) : string := render 0 v.

(** *** Reading *)

Definition is_ws (c : ascii) : bool :=
  let n := N_of_ascii c in
  (N.eqb n 32 || N.eqb n 9 || N.eqb n 10 || N.eqb n 13)%bool.

Fixpoint skip_ws (s : string) : string :=
  match s with
  | String c rest => if is_ws c then skip_ws rest else s
  | EmptyString => s
  end.

Definition is_digit (c : ascii) : bool :=
  let n := N_of_ascii c in (N.leb 48 n && N.leb n 57)%bool.

Definition hex_value (c : ascii) : option N :=
  let n := N_of_ascii c in
  if (N.leb 48 n && N.leb n 57)%bool then Some (n - 48)%N
  else if (N.leb 97 n && N.leb n 102)%bool then Some (n - 87)%N
  else if (N.leb 65 n && N.leb n 70)%bool then Some (n - 55)%N
  else None.

(** After the opening quote: the characters up to the closing one. *)
Fixpoint read_string (s : string) : option (string * string) :=
  match s with
  | EmptyString => None
  | String c rest =>
      if Ascii.eqb c dquote then Some (EmptyString, rest)
      else if Ascii.eqb c "\" then
        match rest with
        | String "u" (String a (String b (String h (String l rest')))) =>
            match hex_value a, hex_value b, hex_value h, hex_value l with
            | Some 0%N, Some 0%N, Some x, Some y =>
                match read_string rest' with
                | Some (t, r) => Some (String (ascii_of_N (16 * x + y)) t, r)
                | None => None
                end
            | _, _, _, _ => None
            end
        | String e rest' =>
            let plain (c' : ascii) :=
              match read_string rest' with
              | Some (t, r) => Some (String c' t, r)
              | None => None
              end in
            if Ascii.eqb e dquote then plain dquote
            else if Ascii.eqb e "\" then plain "\"
            else if Ascii.eqb e "/" then plain "/"
            else if Ascii.eqb e "b" then plain "008"
            else if Ascii.eqb e "f" then plain "012"
            else if Ascii.eqb e "n" then plain "010"
            else if Ascii.eqb e "r" then plain "013"
            else if Ascii.eqb e "t" then plain "009"
            else None
        | EmptyString => None
        end
      else if N.ltb (N_of_ascii c) 32 then None
      else
        match read_string rest with
        | Some (t, r) => Some (String c t, r)
        | None => None
        end
  end.

Fixpoint span_digits (s : string) : string * string :=
  match s with
  | String c rest =>
      if is_digit c then
        let (ds, r) := span_digits rest in (String c ds, r)
      else (EmptyString, s)
  | EmptyString => (EmptyString, s)
  end.

Definition read_digits (s : string) : option (Z * string) :=
  let (ds, r) := span_digits s in
  match ds with
  | EmptyString => None
  | String "0" (String _ _) => None
  | _ =>
      match NilZero.uint_of_string ds with
      | Some u => Some (Z.of_uint u, r)
      | None => None
      end
  end.

Definition read_number (s : string) : option (Z * string) :=
  match s with
  | String "-" rest =>
      match read_digits rest with
      | Some (z, r) => Some (- z, r)
      | None => None
      end
  | _ => read_digits s
  end.

(** [s] without the prefix [word], when it starts with it. *)
Fixpoint strip_prefix (word s : string) : option string :=
  match word, s with
  | EmptyString, _ => Some s
  | String a word', String b s' =>
      if Ascii.eqb a b then strip_prefix word' s' else None
  | String _ _, EmptyString => None
  end.

(** The rest of [s] after blanks and the character [c], when that is
    what comes next. *)
Definition expect (c : ascii) (s : string) : option string :=
  match skip_ws s with
  | String c' rest => if Ascii.eqb c' c then Some rest else None
  | EmptyString => None
  end.

Fixpoint read_value (fuel : nat) (s : string) : option (pyval * string) :=
  match fuel with
  | O => None
  | S fuel' =>
      match skip_ws s with
      | EmptyString => None
      | String c rest =>
          if Ascii.eqb c "{" then
            match expect "}" rest with
            | Some rest' => Some (PDict [], rest')
            | None => read_members fuel' [] rest
            end
          else if Ascii.eqb c "[" then
            match expect "]" rest with
            | Some rest' => Some (PList [], rest')
            | None => read_items fuel' [] rest
            end
          else if Ascii.eqb c dquote then
            match read_string rest with
            | Some (t, r) => Some (PStr t, r)
            | None => None
            end
          else if Ascii.eqb c "n" then
            option_map (pair PNone) (strip_prefix "ull" rest)
          else if Ascii.eqb c "t" then
            option_map (pair (PBool true)) (strip_prefix "rue" rest)
          else if Ascii.eqb c "f" then
            option_map (pair (PBool false)) (strip_prefix "alse" rest)
          else
            match read_number (String c rest) with
            | Some (z, r) => Some (PInt z, r)
            | None => None
            end
      end
  end

with read_members (fuel : nat) (acc : pydict) (s : string)
    : option (pyval * string) :=
  match fuel with
  | O => None
  | S fuel' =>
      match expect dquote s with
      | Some r0 =>
          match read_string r0 with
          | Some (key, r1) =>
              match expect ":" r1 with
              | Some r2 =>
                  match read_value fuel' r2 with
                  | Some (v, r3) =>
                      let acc' := dict_set (KStr key) v acc in
                      match expect "," r3 with
                      | Some r4 => read_members fuel' acc' r4
                      | None =>
                          match expect "}" r3 with
                          | Some r4 => Some (PDict acc', r4)
                          | None => None
                          end
                      end
                  | None => None
                  end
              | None => None
              end
          | None => None
          end
      | None => None
      end
  end

with read_items (fuel : nat) (acc : list pyval) (s : string)
    : option (pyval * string) :=
  match fuel with
  | O => None
  | S fuel' =>
      match read_value fuel' s with
      | Some (v, r1) =>
          match expect "," r1 with
          | Some r2 => read_items fuel' (acc ++ [v]) r2
          | None =>
              match expect "]" r1 with
              | Some r2 => Some (PList (acc ++ [v]), r2)
              | None => None
              end
          end
      | None => None
      end
  end.

Definition loads (s : string) : option pyval :=
  match read_value (S (String.length s)) s with
  | Some (v, rest) =>
      match skip_ws rest with
      | EmptyString => Some v
      | String _ _ => None
      end
  | None => None
  end.

(** What the text of [v] reads back as: the keys have become strings. *)
Fixpoint image (v : pyval) : pyval :=
  match v with
  | PList l => PList (map image l)
  | PDict d =>
      PDict (fold_left
               (fun acc kv => dict_set (KStr (key_text (fst kv)))
                                (image (snd kv)) acc)
               d [])
  | _ => v
  end.

(** *** The vocabulary of the round trip *)

Local Open Scope string_scope.

(** What may follow a number: anything but a digit. *)
Definition no_digit_head (s : string) : Prop :=
  match s with
  | String c _ => is_digit c = false
  | EmptyString => True
  end.

(** The first character of a decimal: a digit or the sign. *)
Definition number_head (c : ascii) : Prop :=
  is_digit c = true \/ c = "-"%char.

(** Blanks only. *)
Fixpoint all_ws (s : string) : bool :=
  match s with
  | EmptyString => true
  | String c r => is_ws c && all_ws r
  end.

(** The text that follows an item of a list at depth [d]. *)
Fixpoint items_tail (d : nat) (l : list pyval) : string :=
  match l with
  | [] => break d ++ "]"
  | x :: r => "," ++ break (S d) ++ render (S d) x ++ items_tail d r
  end.

(** The text of one item of a dictionary at depth [d]. *)
Definition member (d : nat) (kv : pykey * pyval) : string :=
  quoted (key_text (fst kv)) ++ ": " ++ render (S d) (snd kv).

(** The text that follows an item of a dictionary at depth [d]. *)
Fixpoint members_tail (d : nat) (l : pydict) : string :=
  match l with
  | [] => break d ++ "}"
  | kv :: r => "," ++ break (S d) ++ member d kv ++ members_tail d r
  end.

(** How the text of a value starts: no blank, no closing bracket. *)
Definition value_head (s : string) : Prop :=
  match s with
  | String c _ =>
      is_ws c = false /\ c <> "]"%char /\ c <> "}"%char
  | EmptyString => False
  end.

(** The reader gets [image v] back from the text of [v], at any depth,
    after any blanks and before any rest. *)
Definition reads (v : pyval) : Prop :=
  forall d pad rest f,
    all_ws pad = true -> no_digit_head rest ->
    (String.length (render d v) < f)%nat ->
    read_value f (pad ++ render d v ++ rest) = Some (image v, rest).

(** One step of the fold of [image] over the items of a dictionary. *)
Definition image_step (acc : pydict) (kv : pykey * pyval) : pydict :=
  dict_set (KStr (key_text (fst kv))) (image (snd kv)) acc.

End RefJson.

#[export] Instance ref_json : JsonLib := {|
  json_dumps := RefJson.dumps;
  json_loads := RefJson.loads
|}.

(** A runtime to compute with: a polynomial hash, and the names the
    enumerations print as. *)
Fixpoint poly_hash (s : string) (acc : Z) : Z :=
  match s with
  | EmptyString => acc
  | String c rest =>
      poly_hash rest ((acc * 31 + Z.of_N (N_of_ascii c)) mod 2305843009213693951)
  end.

#[export] Instance ref_runtime : PyRuntime := {|
  hash := fun s => poly_hash s 7;
  str_family := fun f =>
    match f with
    | AF_INET => "AddressFamily.AF_INET"
    | AF_INET6 => "AddressFamily.AF_INET6"
    end;
  str_type := fun t =>
    match t with
    | SOCK_STREAM => "SocketKind.SOCK_STREAM"
    | SOCK_DGRAM => "SocketKind.SOCK_DGRAM"
    end;
  sleep_max := 9223372036
|}.

(* ================================================================= *)
(** ** Scenarios to compute with *)

Module Scenario.

Definition local : addr := mkAddr "10.0.0.1" 5000.
Definition remote : addr := mkAddr "93.184.216.34" 443.

(** The connection of scenario A. *)
Definition established : sconn :=
  mkSconn 12 AF_INET SOCK_STREAM (Some local) (Some remote)
    "ESTABLISHED" (Some 100).

(** A listening socket: no remote address (scenario C). *)
Definition listening : sconn :=
  mkSconn 5 AF_INET SOCK_STREAM (Some (mkAddr "0.0.0.0" 22)) None
    "LISTEN" (Some 700).

(** A connection no process owns any more. *)
Definition lingering : sconn :=
  mkSconn (-1) AF_INET SOCK_STREAM (Some (mkAddr "10.0.0.1" 5002))
    (Some remote) "TIME_WAIT" None.

(** A connection of a process whose name may not be read. *)
Definition guarded : sconn :=
  mkSconn 7 AF_INET6 SOCK_STREAM (Some (mkAddr "::1" 6010))
    (Some (mkAddr "::1" 41000)) "ESTABLISHED" (Some 1).

Definition names (of_100 : string) (p : Z) : result error string :=
  if Z.eqb p 100 then Ok of_100
  else if Z.eqb p 1 then Raise AccessDenied
  else Raise NoSuchProcess.

Definition psutil_now : psutil_view :=
  mkPsutil (Ok [listening; established; lingering; guarded])
    (fun _ => true) (names "curl").

(** Later, pid 100 runs another program (scenario B) and the same
    connection is listed through a second descriptor. *)
Definition established_again : sconn :=
  mkSconn 13 AF_INET6 SOCK_DGRAM (Some local) (Some remote)
    "ESTABLISHED" (Some 100).

Definition psutil_later : psutil_view :=
  mkPsutil (Ok [established_again]) (fun _ => true) (names "wget").



Definition nothing : world := mkWorld [] [].

(** A world where the known-connections file is a directory. *)
Definition blocked : world :=
  mkWorld [("known_connections.json", Directory)] [].

(** A world where the known-connections file holds broken JSON. *)
Definition broken : world :=
  mkWorld [("known_connections.json", File "{ 42: " true true)] [].

Definition with_output (file : string) : arguments :=
  mkArgs 5 "known_connections.json" false (Some file).

(** The arguments of [--interval -1]. *)
Definition hasty : arguments :=
  mkArgs (-1) "known_connections.json" false None.

(** A world where the output path is a directory. *)
Definition no_report : world :=
  mkWorld [("new_connections.json", Directory)] [].

(** A world where the output file holds an earlier report. *)
Definition stale_report : world :=
  mkWorld [("new_connections.json", File "{}" true true)] [].

(** The world after the known connections [d] were saved. *)
Definition saved (d : pydict) : world :=
  mkWorld [("known_connections.json", File (json_dumps (PDict d)) true true)]
    [].

(** The snapshot of [psutil_now]. *)
Definition snapshot_now : pydict :=
  fold_left (add_item psutil_now) [listening; established; lingering; guarded]
    [].

(** A view where the name lookup for pid 100 fails in another way. *)
Definition psutil_flaky : psutil_view :=
  mkPsutil (Ok [listening; established; lingering; guarded])
    (fun _ => true)
    (fun p => if Z.eqb p 100 then Raise (OtherError "zombie")
              else names "curl" p).

(** A view where the connections cannot be listed. *)
Definition psutil_down : psutil_view :=
  mkPsutil (Raise AccessDenied) (fun _ => true) (names "curl").

(** A world where the known-connections file holds a JSON array. *)
Definition listed : world :=
  mkWorld [("known_connections.json", File "[1, 2]" true true)] [].

(** The snapshot of [psutil_later]. *)
Definition snapshot_later : pydict :=
  fold_left (add_item psutil_later) [established_again] [].

End Scenario.

(* ================================================================= *)
(** ** Dictionaries *)

Lemma pykey_eqb_eq (a b : pykey) : pykey_eqb a b = true <-> a = b.
Proof.
  destruct a as [x|s], b as [y|t]; simpl; split; intros H;
    try discriminate; try congruence.
  - apply Z.eqb_eq in H. congruence.
  - inversion H. apply Z.eqb_refl.
  - apply String.eqb_eq in H. congruence.
  - inversion H. apply String.eqb_refl.
Qed.

Lemma pykey_eqb_refl (a : pykey) : pykey_eqb a a = true.
Proof. now apply pykey_eqb_eq. Qed.

Lemma pykey_eqb_neq (a b : pykey) : pykey_eqb a b = false <-> a <> b.
Proof.
  split.
  - intros H E. apply pykey_eqb_eq in E. congruence.
  - intros H. destruct (pykey_eqb a b) eqn:E; [|reflexivity].
    apply pykey_eqb_eq in E. contradiction.
Qed.

Lemma pykey_eqb_sym (a b : pykey) : pykey_eqb a b = pykey_eqb b a.
Proof.
  destruct (pykey_eqb b a) eqn:E.
  - apply pykey_eqb_eq in E. subst. apply pykey_eqb_refl.
  - apply pykey_eqb_neq in E. apply pykey_eqb_neq. congruence.
Qed.

Lemma dict_get_set (k k' : pykey) (v : pyval) (d : pydict) :
  dict_get k (dict_set k' v d)
  = if pykey_eqb k k' then Some v else dict_get k d.
Proof.
  induction d as [|[q x] d IH]; simpl.
  - reflexivity.
  - destruct (pykey_eqb k' q) eqn:E; simpl.
    + apply pykey_eqb_eq in E. subst q.
      destruct (pykey_eqb k k'); reflexivity.
    + destruct (pykey_eqb k q) eqn:F.
      * apply pykey_eqb_eq in F. subst q.
        rewrite pykey_eqb_sym, E. reflexivity.
      * exact IH.
Qed.

Lemma dict_get_None (k : pykey) (d : pydict) :
  dict_get k d = None <-> ~ In k (dict_keys d).
Proof.
  induction d as [|[q x] d IH]; simpl.
  - tauto.
  - destruct (pykey_eqb k q) eqn:E.
    + apply pykey_eqb_eq in E. subst. split; [discriminate | tauto].
    + apply pykey_eqb_neq in E. rewrite IH. split.
      * intros H [F|F]; [congruence | tauto].
      * tauto.
Qed.

Lemma dict_get_In (k : pykey) (v : pyval) (d : pydict) :
  dict_get k d = Some v -> In (k, v) d.
Proof.
  induction d as [|[q x] d IH]; simpl; [discriminate|].
  destruct (pykey_eqb k q) eqn:E.
  - apply pykey_eqb_eq in E. intros H. left. congruence.
  - intros H. right. auto.
Qed.

Lemma dict_mem_In (k : pykey) (d : pydict) :
  dict_mem k d = true <-> In k (dict_keys d).
Proof.
  unfold dict_mem. destruct (dict_get k d) eqn:E.
  - split; [intros _ | reflexivity].
    apply dict_get_In in E. change k with (fst (k, p)). now apply in_map.
  - apply dict_get_None in E. split; [discriminate | contradiction].
Qed.

Lemma dict_mem_false (k : pykey) (d : pydict) :
  dict_mem k d = false <-> dict_get k d = None.
Proof. unfold dict_mem. destruct (dict_get k d); split; congruence. Qed.

Lemma dict_wf_get (k : pykey) (v : pyval) (d : pydict) :
  dict_wf d -> In (k, v) d -> dict_get k d = Some v.
Proof.
  unfold dict_wf. induction d as [|[q x] d IH]; simpl; [tauto|].
  intros W [H|H].
  - inversion H. subst. now rewrite pykey_eqb_refl.
  - inversion W as [|? ? N W']. subst.
    destruct (pykey_eqb k q) eqn:E.
    + apply pykey_eqb_eq in E. subst q. exfalso. apply N.
      change k with (fst (k, v)). now apply in_map.
    + auto.
Qed.

Lemma dict_set_fresh (k : pykey) (v : pyval) (d : pydict) :
  dict_get k d = None -> dict_set k v d = (d ++ [(k, v)])%list.
Proof.
  induction d as [|[q x] d IH]; simpl; [reflexivity|].
  destruct (pykey_eqb k q); [discriminate|].
  intros H. now rewrite IH.
Qed.

Lemma dict_keys_set (k : pykey) (v : pyval) (d : pydict) :
  dict_keys (dict_set k v d)
  = if dict_mem k d then dict_keys d else (dict_keys d ++ [k])%list.
Proof.
  unfold dict_mem. induction d as [|[q x] d IH]; simpl; [reflexivity|].
  destruct (pykey_eqb k q) eqn:E; simpl; [reflexivity|].
  rewrite IH. destruct (dict_get k d); reflexivity.
Qed.

Lemma dict_wf_set (k : pykey) (v : pyval) (d : pydict) :
  dict_wf d -> dict_wf (dict_set k v d).
Proof.
  unfold dict_wf. intros W. rewrite dict_keys_set.
  destruct (dict_mem k d) eqn:E; [exact W|].
  apply dict_mem_false, dict_get_None in E.
  apply NoDup_app; [exact W | repeat constructor; intros [] | ].
  intros a Ha [Hb|[]]. congruence.
Qed.

Lemma dict_wf_update (d other : pydict) :
  dict_wf d -> dict_wf (dict_update d other).
Proof.
  unfold dict_update. revert d.
  induction other as [|[k v] other IH]; simpl; intros d W; [exact W|].
  apply IH. now apply dict_wf_set.
Qed.

Lemma dict_get_update (k : pykey) (d other : pydict) :
  dict_wf other ->
  dict_get k (dict_update d other)
  = match dict_get k other with
    | Some v => Some v
    | None => dict_get k d
    end.
Proof.
  unfold dict_update, dict_wf. revert d.
  induction other as [|[q x] other IH]; simpl; intros d W; [reflexivity|].
  inversion W as [|? ? N W']. subst.
  rewrite (IH _ W'), dict_get_set.
  destruct (pykey_eqb k q) eqn:E.
  - apply pykey_eqb_eq in E. subst q.
    apply dict_get_None in N. now rewrite N.
  - reflexivity.
Qed.

Lemma dict_keys_update_incl (d other : pydict) (k : pykey) :
  dict_mem k d = true -> dict_mem k (dict_update d other) = true.
Proof.
  unfold dict_update. revert d.
  induction other as [|[q x] other IH]; simpl; intros d H; [exact H|].
  apply IH. unfold dict_mem in *. rewrite dict_get_set.
  destruct (pykey_eqb k q); [reflexivity | exact H].
Qed.

Lemma dict_keys_update_new (d other : pydict) (k : pykey) :
  dict_mem k other = true -> dict_mem k (dict_update d other) = true.
Proof.
  unfold dict_update. revert d.
  induction other as [|[q x] other IH]; simpl; intros d H.
  - discriminate.
  - unfold dict_mem in H. simpl in H.
    destruct (pykey_eqb k q) eqn:E.
    + apply (dict_keys_update_incl _ other). unfold dict_mem.
      rewrite dict_get_set, E. reflexivity.
    + apply IH. exact H.
Qed.

Lemma dict_set_length (k : pykey) (v : pyval) (d : pydict) :
  (length d <= length (dict_set k v d))%nat.
Proof.
  induction d as [|[q x] d IH]; simpl; [lia|].
  destruct (pykey_eqb k q); simpl; lia.
Qed.

Lemma dict_update_length (d other : pydict) :
  (length d <= length (dict_update d other))%nat.
Proof.
  unfold dict_update. revert d.
  induction other as [|[q x] other IH]; simpl; intros d; [lia|].
  specialize (IH (dict_set q x d)). pose proof (dict_set_length q x d). lia.
Qed.

(* ================================================================= *)
(** ** The diff and the merge *)

Ltac run_m :=
  cbv beta iota zeta
      delta [bind ret raise lift try_except logging get_fs put_fs
             open_write open_read] in *.

Section Diff.
Context {RT : PyRuntime} {JS : JsonLib}.

Lemma new_entries_loop (known current acc : pydict) (w : world) :
  dict_wf current ->
  (forall k, In k (dict_keys current) -> dict_get k acc = None) ->
  for_each current (note_if_new (PDict known)) acc w
  = (Ok (acc ++ new_entries known current)%list,
     mkWorld (fs w) (log w ++ new_warnings (new_entries known current))).
Proof.
  unfold dict_wf. revert acc w.
  induction current as [|[k v] current IH]; simpl; intros acc w W F.
  - rewrite !List.app_nil_r. destruct w; reflexivity.
  - inversion W as [|? ? N W']. subst.
    unfold new_entries. simpl. run_m. simpl.
    destruct (dict_mem k known) eqn:E; simpl.
    + apply IH; auto.
    + rewrite dict_set_fresh by auto.
      rewrite IH; simpl; auto.
      * rewrite <- !List.app_assoc. reflexivity.
      * intros q Hq. rewrite <- dict_set_fresh by auto.
        rewrite dict_get_set.
        destruct (pykey_eqb q k) eqn:Q; [|auto].
        apply pykey_eqb_eq in Q. subst. contradiction.
Qed.

Lemma alert_returns (new_connections : pydict) (output_file : option string)
    (w : world) :
  exists w', alert new_connections output_file w = (Ok tt, w').
Proof.
  unfold alert. destruct new_connections as [|x l].
  - eexists. reflexivity.
  - destruct (configured output_file) as [p|]; [|eexists; reflexivity].
    run_m.
    destruct (write_file p (json_dumps (PDict (x :: l))) (fs w)) as [f|e];
      eexists; reflexivity.
Qed.

Lemma new_entries_get (known current : pydict) (k : pykey) :
  dict_get k (new_entries known current)
  = if dict_mem k known then None else dict_get k current.
Proof.
  unfold new_entries. induction current as [|[q x] current IH]; simpl.
  - destruct (dict_mem k known); reflexivity.
  - destruct (dict_mem q known) eqn:E; simpl.
    + destruct (pykey_eqb k q) eqn:Q; [|exact IH].
      apply pykey_eqb_eq in Q. subst q. rewrite IH, E. reflexivity.
    + destruct (pykey_eqb k q) eqn:Q; [|exact IH].
      apply pykey_eqb_eq in Q. subst q. rewrite E. reflexivity.
Qed.

Lemma new_entries_nil (known current : pydict) :
  (forall k, In k (dict_keys current) -> dict_mem k known = true) ->
  new_entries known current = [].
Proof.
  unfold new_entries. induction current as [|[q x] current IH]; simpl;
    intros H; [reflexivity|].
  rewrite (H q) by auto. simpl. auto.
Qed.

(** C3. For mappings [known] and [current], [check_for_new_connections]
    returns exactly the items of [current] whose fingerprint is not a key
    of [known], whatever the output file and the state of the files; the
    result is empty when every fingerprint of [current] is a key of
    [known]. *)
Theorem check_for_new_connections_diff
    (known current : pydict) (output_file : option string) (w : world) :
  dict_wf current ->
  (exists w',
      check_for_new_connections (PDict known) current output_file w
      = (Ok (new_entries known current), w'))
  /\ (forall k,
        dict_get k (new_entries known current)
        = if dict_mem k known then None else dict_get k current)
  /\ ((forall k, In k (dict_keys current) -> dict_mem k known = true) ->
      new_entries known current = []).
Proof.
  intros W. split; [|split].
  - unfold check_for_new_connections, bind at 1.
    rewrite new_entries_loop by (auto; reflexivity). simpl.
    unfold bind.
    destruct (alert_returns (new_entries known current) output_file
                (mkWorld (fs w)
                   (log w ++ new_warnings (new_entries known current))))
      as [w' E].
    rewrite E. exists w'. reflexivity.
  - apply new_entries_get.
  - apply new_entries_nil.
Qed.

(** C5. For mappings [known] and [current], [known.update(current)] keeps
    every fingerprint of [known] as a key, makes every fingerprint of
    [current] a key, stores the record of [current] under a fingerprint of
    [current] and leaves the other records as they were; no item is
    removed. *)
Theorem update_monotone (known current : pydict) :
  dict_wf current ->
  exists merged,
    py_update (PDict known) current = Ok (PDict merged)
    /\ (forall k, dict_mem k known = true -> dict_mem k merged = true)
    /\ (forall k, dict_mem k current = true -> dict_mem k merged = true)
    /\ (forall k v, dict_get k current = Some v -> dict_get k merged = Some v)
    /\ (forall k, dict_mem k current = false ->
                  dict_get k merged = dict_get k known)
    /\ (length known <= length merged)%nat.
Proof.
  intros W. exists (dict_update known current). repeat split.
  - apply dict_keys_update_incl.
  - apply dict_keys_update_new.
  - intros k v H. rewrite dict_get_update, H by exact W. reflexivity.
  - intros k H. apply dict_mem_false in H.
    rewrite dict_get_update, H by exact W. reflexivity.
  - apply dict_update_length.
Qed.

End Diff.

(* ================================================================= *)
(** ** The snapshot *)

Section Snapshot.
Context {RT : PyRuntime} {JS : JsonLib}.

(** One pass of the loop body returns, touches no file, and adds the item
    of the raw record or nothing. *)
Lemma record_connection_item (os : psutil_view) (acc : pydict) (c : sconn)
    (w : world) :
  exists w',
    record_connection os acc c w
    = (Ok match snapshot_item os c with
          | Some (k, v) => dict_set k v acc
          | None => acc
          end, w')
    /\ fs w' = fs w.
Proof.
  unfold record_connection, snapshot_item, fingerprint, details,
    resolve_process_name, settled_name.
  destruct (laddr c) as [la|], (raddr c) as [ra|];
    try (exists w; split; reflexivity).
  destruct (pid c) as [p|]; [|exists w; split; reflexivity].
  destruct (pid_exists os p); [|exists w; split; reflexivity].
  run_m.
  destruct (Process_name os p) as [n|[]];
    eexists; split; try reflexivity; reflexivity.
Qed.

Lemma for_each_record (os : psutil_view) (conns : list sconn) (acc : pydict)
    (w : world) :
  exists w',
    for_each conns (record_connection os) acc w
    = (Ok (fold_left (add_item os) conns acc), w')
    /\ fs w' = fs w.
Proof.
  revert acc w. induction conns as [|c conns IH]; simpl; intros acc w.
  - exists w. split; reflexivity.
  - destruct (record_connection_item os acc c w) as [w1 [E F]].
    destruct (IH (add_item os acc c) w1) as [w2 [E2 F2]].
    exists w2. unfold bind. rewrite E. fold (add_item os acc c).
    rewrite E2. split; [reflexivity | congruence].
Qed.

(** The snapshot is taken whenever psutil lists the connections. *)
Lemma get_current_connections_returns (os : psutil_view)
    (conns : list sconn) (w : world) :
  net_connections os = Ok conns ->
  exists w',
    get_current_connections os w = (Ok (fold_left (add_item os) conns []), w')
    /\ fs w' = fs w.
Proof.
  intros H. unfold get_current_connections, bind, lift. rewrite H.
  apply for_each_record.
Qed.

Lemma fold_add_item_origin (os : psutil_view) (conns : list sconn)
    (acc : pydict) (k : pykey) (v : pyval) :
  In (k, v) (fold_left (add_item os) conns acc) ->
  In (k, v) acc \/ exists c, In c conns /\ snapshot_item os c = Some (k, v).
Proof.
  revert acc. induction conns as [|c conns IH]; simpl; intros acc H.
  - now left.
  - destruct (IH _ H) as [H1|[c' [H1 H2]]].
    + unfold add_item in H1.
      destruct (snapshot_item os c) as [[q x]|] eqn:E; [|now left].
      assert (W : In (k, v) acc \/ (k, v) = (q, x)).
      { clear -H1. induction acc as [|[a b] acc IHa]; simpl in *.
        - destruct H1 as [H1|[]]. right. congruence.
        - destruct (pykey_eqb q a) eqn:Q; simpl in H1.
          + apply pykey_eqb_eq in Q. subst a.
            destruct H1 as [H1|H1]; [right; congruence | left; now right].
          + destruct H1 as [H1|H1]; [left; now left|].
            destruct (IHa H1); [left; now right | now right]. }
      destruct W as [W|W]; [now left|].
      right. exists c. split; [now left | congruence].
    + right. exists c'. split; [now right | exact H2].
Qed.




(** A pid that psutil no longer knows gets the name "System": the lookup
    is not attempted. *)
Lemma settled_name_gone (os : psutil_view) (c : sconn) (p : Z) :
  pid c = Some p -> pid_exists os p = false ->
  settled_name os c = Some "System".
Proof. intros P X. unfold settled_name. now rewrite P, X. Qed.

Lemma snapshot_item_inv (os : psutil_view) (c : sconn) (k : pykey)
    (v : pyval) :
  snapshot_item os c = Some (k, v) ->
  exists la ra n,
    laddr c = Some la /\ raddr c = Some ra /\ settled_name os c = Some n
    /\ k = KInt (connection_hash (pid c) (format_address la)
                   (format_address ra) (status c))
    /\ v = connection_details (pid c) (format_address la)
             (format_address ra) (status c) n
             (str_family (family c)) (str_type (type c)).
Proof.
  unfold snapshot_item, fingerprint, details.
  destruct (laddr c) as [la|], (raddr c) as [ra|]; try discriminate.
  destruct (settled_name os c) as [n|]; [|discriminate].
  intros H. inversion H. exists la, ra, n. repeat split.
Qed.

(** C7. Whatever raw records psutil lists, in whatever order, the snapshot
    is taken and each of its items comes from a raw record of the list
    that has both its local and its remote address; a raw record that
    lacks one leaves the snapshot and the log as they were. *)
Theorem snapshot_needs_both_addresses
    (os : psutil_view) (conns : list sconn) (w : world) :
  net_connections os = Ok conns ->
  (exists snapshot w',
      get_current_connections os w = (Ok snapshot, w')
      /\ forall k v, In (k, v) snapshot ->
           exists c la ra n,
             In c conns /\ laddr c = Some la /\ raddr c = Some ra
             /\ k = KInt (connection_hash (pid c) (format_address la)
                            (format_address ra) (status c))
             /\ v = connection_details (pid c) (format_address la)
                      (format_address ra) (status c) n
                      (str_family (family c)) (str_type (type c)))
  /\ (forall c acc w0,
        laddr c = None \/ raddr c = None ->
        record_connection os acc c w0 = (Ok acc, w0)).
Proof.
  intros H. split.
  - destruct (get_current_connections_returns os conns w H) as [w' [E _]].
    exists (fold_left (add_item os) conns []), w'. split; [exact E|].
    intros k v I. apply fold_add_item_origin in I.
    destruct I as [[]|[c [I S]]].
    apply snapshot_item_inv in S. destruct S as [la [ra [n S]]].
    exists c, la, ra, n. tauto.
  - intros c acc w0 A. unfold record_connection.
    destruct A as [A|A]; rewrite A; [|destruct (laddr c)]; reflexivity.
Qed.



(** C4. The key under which the loop body stores a record depends on the
    record's pid, local address, remote address and status only: two
    stored records that agree on these four fields are stored under the
    same fingerprint, whatever their process name, family and type, and
    whatever psutil reported when each was taken. *)
Theorem fingerprint_of_identity_fields
    (os1 os2 : psutil_view) (c1 c2 : sconn) (w1 w2 w1' w2' : world)
    (k1 k2 : pykey) (r1 r2 : pyval) :
  record_connection os1 [] c1 w1 = (Ok [(k1, r1)], w1') ->
  record_connection os2 [] c2 w2 = (Ok [(k2, r2)], w2') ->
  py_item r1 "pid" = py_item r2 "pid" ->
  py_item r1 "local_address" = py_item r2 "local_address" ->
  py_item r1 "remote_address" = py_item r2 "remote_address" ->
  py_item r1 "status" = py_item r2 "status" ->
  k1 = k2.
Proof.
  intros E1 E2.
  destruct (record_connection_item os1 [] c1 w1) as [u1 [F1 _]].
  destruct (record_connection_item os2 [] c2 w2) as [u2 [F2 _]].
  rewrite E1 in F1. rewrite E2 in F2.
  destruct (snapshot_item os1 c1) as [[q1 x1]|] eqn:S1; [|discriminate].
  destruct (snapshot_item os2 c2) as [[q2 x2]|] eqn:S2; [|discriminate].
  simpl in F1, F2. inversion F1. inversion F2. subst q1 x1 q2 x2.
  apply snapshot_item_inv in S1. apply snapshot_item_inv in S2.
  destruct S1 as [la1 [ra1 [n1 [_ [_ [_ [K1 V1]]]]]]].
  destruct S2 as [la2 [ra2 [n2 [_ [_ [_ [K2 V2]]]]]]].
  subst k1 k2 r1 r2. unfold connection_details, py_item. simpl.
  intros P L R S. inversion L. inversion R. inversion S.
  assert (pid c1 = pid c2) as ->.
  { destruct (pid c1), (pid c2); simpl in P; congruence. }
  congruence.
Qed.

End Snapshot.

(* ================================================================= *)
(** ** Files *)

Lemma fs_lookup_store (p q : string) (n : node) (f : fsys) :
  fs_lookup p (fs_store q n f)
  = if String.eqb p q then Some n else fs_lookup p f.
Proof.
  induction f as [|[r m] f IH]; simpl.
  - reflexivity.
  - destruct (String.eqb q r) eqn:E; simpl.
    + apply String.eqb_eq in E. subst r.
      destruct (String.eqb p q); reflexivity.
    + destruct (String.eqb p r) eqn:F.
      * apply String.eqb_eq in F. subst r.
        rewrite String.eqb_sym, E. reflexivity.
      * exact IH.
Qed.

Lemma write_file_writable (p s : string) (f : fsys) :
  writable p f = true ->
  exists f',
    write_file p s f = Ok f' /\ file_content p f' = Some s
    /\ (forall q, q <> p -> fs_lookup q f' = fs_lookup q f).
Proof.
  unfold writable, write_file, file_content.
  destruct (fs_lookup p f) as [[c r [|]| |]|] eqn:E; try discriminate;
    intros _; eexists; (split; [reflexivity|]);
    (split; [rewrite fs_lookup_store, String.eqb_refl; reflexivity|]);
    intros q N; rewrite fs_lookup_store;
    apply String.eqb_neq in N; rewrite N; reflexivity.
Qed.

Lemma write_file_unwritable (p s : string) (f : fsys) :
  writable p f = false -> exists e, write_file p s f = Raise e.
Proof.
  unfold writable, write_file.
  destruct (fs_lookup p f) as [[c r [|]| |]|]; try discriminate;
    intros _; eexists; reflexivity.
Qed.

Lemma write_file_keeps_writable (p q s : string) (f f' : fsys) :
  write_file p s f = Ok f' -> writable q f' = writable q f.
Proof.
  unfold write_file, writable.
  destruct (fs_lookup p f) as [[c r [|]| |]|] eqn:E; try discriminate;
    intros H; inversion H; subst f'; rewrite fs_lookup_store;
    destruct (String.eqb q p) eqn:Q; try reflexivity;
    apply String.eqb_eq in Q; subst q; rewrite E; reflexivity.
Qed.

(* ================================================================= *)
(** ** The reference codec reads what it writes *)

Module RefJsonFacts.
Import RefJson.

Lemma string_append_assoc (a b c : string) :
  ((a ++ b) ++ c = a ++ (b ++ c))%string.
Proof. induction a; simpl; congruence. Qed.

Lemma string_length_append (a b : string) :
  String.length (a ++ b) = (String.length a + String.length b)%nat.
Proof. induction a; simpl; congruence. Qed.

Lemma read_string_escape (s rest : string) :
  read_string (escape s ++ String dquote rest) = Some (s, rest).
Proof.
  induction s as [|c s IH]; [reflexivity|].
  simpl escape. rewrite string_append_assoc.
  destruct c as [[] [] [] [] [] [] [] []];
    cbn -[read_string escape append]; simpl; rewrite IH; reflexivity.
Qed.
Lemma span_digits_stop (rest : string) :
  no_digit_head rest -> span_digits rest = (EmptyString, rest).
Proof. destruct rest as [|c r]; simpl; [reflexivity|]. now intros ->. Qed.

Lemma span_digits_uint (d : uint) (rest : string) :
  no_digit_head rest ->
  span_digits (NilEmpty.string_of_uint d ++ rest)
  = (NilEmpty.string_of_uint d, rest).
Proof.
  intros H. induction d; simpl; try (rewrite IHd; reflexivity).
  now apply span_digits_stop.
Qed.

Lemma nzhead_not_D0 (d d' : uint) : nzhead d <> D0 d'.
Proof. induction d; simpl; try discriminate. exact IHd. Qed.

Lemma to_uint_not_D0 (p : positive) (d : uint) : Pos.to_uint p <> D0 d.
Proof.
  intros H.
  pose proof (Unsigned.to_of (Pos.to_uint p)) as U.
  rewrite Unsigned.of_to in U. simpl in U. rewrite H in U.
  unfold unorm in U. simpl in U.
  destruct (nzhead d) eqn:E; try discriminate.
  - inversion U. subst d. now apply (Unsigned.to_uint_nonzero p).
  - now apply nzhead_not_D0 in E.
Qed.

Lemma read_digits_pos (p : positive) (rest : string) :
  no_digit_head rest ->
  read_digits (NilEmpty.string_of_uint (Pos.to_uint p) ++ rest)
  = Some (Z.pos p, rest).
Proof.
  intros H. unfold read_digits. rewrite span_digits_uint by exact H.
  assert (V : NilZero.uint_of_string
                (NilEmpty.string_of_uint (Pos.to_uint p))
              = Some (Pos.to_uint p)).
  { pose proof (NilZero.usu (Pos.to_uint p) (Unsigned.to_uint_nonnil p)) as U.
    unfold NilZero.string_of_uint in U.
    destruct (Pos.to_uint p) eqn:E; try exact U.
    now apply Unsigned.to_uint_nonnil in E. }
  assert (Z : Z.of_uint (Pos.to_uint p) = Z.pos p).
  { unfold Z.of_uint. now rewrite Unsigned.of_to. }
  destruct (Pos.to_uint p) as [|d|d|d|d|d|d|d|d|d|d] eqn:E.
  - now apply Unsigned.to_uint_nonnil in E.
  - now apply to_uint_not_D0 in E.
  - simpl in *. rewrite V, Z. reflexivity.
  - simpl in *. rewrite V, Z. reflexivity.
  - simpl in *. rewrite V, Z. reflexivity.
  - simpl in *. rewrite V, Z. reflexivity.
  - simpl in *. rewrite V, Z. reflexivity.
  - simpl in *. rewrite V, Z. reflexivity.
  - simpl in *. rewrite V, Z. reflexivity.
  - simpl in *. rewrite V, Z. reflexivity.
  - simpl in *. rewrite V, Z. reflexivity.
Qed.

Lemma str_int_head (z : Z) :
  exists c s, str_int z = String c s /\ number_head c.
Proof.
  unfold str_int, number_head. destruct z as [|p|p]; simpl.
  - exists "0"%char, EmptyString. split; [reflexivity | now left].
  - unfold NilZero.string_of_uint.
    destruct (Pos.to_uint p); simpl;
      eexists; eexists; (split; [reflexivity | now left]).
  - eexists; eexists. split; [reflexivity | now right].
Qed.

Lemma read_number_str_int (z : Z) (rest : string) :
  no_digit_head rest -> read_number (str_int z ++ rest) = Some (z, rest).
Proof.
  intros H. unfold str_int. destruct z as [|p|p]; simpl.
  - unfold read_digits. simpl. rewrite span_digits_stop by exact H. reflexivity.
  - unfold NilZero.string_of_uint.
    pose proof (read_digits_pos p rest H) as R.
    destruct (Pos.to_uint p) eqn:E; simpl in *; try exact R.
    now apply Unsigned.to_uint_nonnil in E.
  - unfold NilZero.string_of_uint.
    pose proof (read_digits_pos p rest H) as R.
    destruct (Pos.to_uint p) eqn:E; simpl in *; try (rewrite R; reflexivity).
    now apply Unsigned.to_uint_nonnil in E.
Qed.

Lemma skip_ws_pad (pad s : string) :
  all_ws pad = true -> skip_ws (pad ++ s) = skip_ws s.
Proof.
  induction pad as [|c pad IH]; simpl; [reflexivity|].
  intros H. apply andb_true_iff in H. destruct H as [H1 H2].
  rewrite H1. auto.
Qed.

Lemma skip_ws_head (s : string) : value_head s -> skip_ws s = s.
Proof. destruct s as [|c r]; simpl; [tauto|]. now intros [-> _]. Qed.

Lemma all_ws_spaces (n : nat) : all_ws (spaces n) = true.
Proof. induction n; simpl; auto. Qed.

Lemma all_ws_break (d : nat) : all_ws (break d) = true.
Proof. unfold break. simpl. apply all_ws_spaces. Qed.

Lemma break_length (d : nat) : (1 <= String.length (break d))%nat.
Proof. unfold break. simpl. lia. Qed.

Lemma join_items (d : nat) (x : pyval) (l : list pyval) :
  (join ("," ++ break (S d)) (map (render (S d)) (x :: l)) ++ break d ++ "]"
   = render (S d) x ++ items_tail d l)%string.
Proof.
  revert x. induction l as [|y l IH]; intros x.
  - reflexivity.
  - change (join ("," ++ break (S d)) (map (render (S d)) (x :: y :: l)))
      with (render (S d) x ++ ("," ++ break (S d))
            ++ join ("," ++ break (S d)) (map (render (S d)) (y :: l))).
    rewrite !string_append_assoc. rewrite IH. reflexivity.
Qed.

Lemma join_members (d : nat) (x : pykey * pyval) (l : pydict) :
  (join ("," ++ break (S d)) (map (member d) (x :: l)) ++ break d ++ "}"
   = member d x ++ members_tail d l)%string.
Proof.
  revert x. induction l as [|y l IH]; intros x.
  - reflexivity.
  - change (join ("," ++ break (S d)) (map (member d) (x :: y :: l)))
      with (member d x ++ ("," ++ break (S d))
            ++ join ("," ++ break (S d)) (map (member d) (y :: l))).
    rewrite !string_append_assoc. rewrite IH. reflexivity.
Qed.

Lemma render_list (d : nat) (x : pyval) (l : list pyval) :
  render d (PList (x :: l))
  = ("[" ++ break (S d) ++ render (S d) x ++ items_tail d l)%string.
Proof.
  change (render d (PList (x :: l)))
    with ("[" ++ break (S d)
          ++ join ("," ++ break (S d)) (map (render (S d)) (x :: l))
          ++ break d ++ "]")%string.
  rewrite join_items. reflexivity.
Qed.

Lemma render_dict (d : nat) (x : pykey * pyval) (l : pydict) :
  render d (PDict (x :: l))
  = ("{" ++ break (S d) ++ member d x ++ members_tail d l)%string.
Proof.
  change (render d (PDict (x :: l)))
    with ("{" ++ break (S d)
          ++ join ("," ++ break (S d)) (map (member d) (x :: l))
          ++ break d ++ "}")%string.
  rewrite join_members. reflexivity.
Qed.

Lemma render_head (d : nat) (v : pyval) (rest : string) :
  value_head (render d v ++ rest).
Proof.
  destruct v as [|[]|z|s|[|x l]|[|x l]];
    try (simpl; repeat split; discriminate).
  - destruct (str_int_head z) as [c [s [E H]]].
    change (render d (PInt z)) with (str_int z). rewrite E. simpl.
    destruct H as [H| ->]; [|repeat split; discriminate].
    unfold is_digit, is_ws in *.
    apply andb_true_iff in H. destruct H as [H1 H2].
    apply N.leb_le in H1, H2.
    repeat split.
    + repeat (apply orb_false_iff; split); apply N.eqb_neq; lia.
    + intros ->. simpl in *. lia.
    + intros ->. simpl in *. lia.
Qed.

Lemma read_value_step (f : nat) (pad s : string) :
  all_ws pad = true -> value_head s ->
  read_value (S f) (pad ++ s) = read_value (S f) s.
Proof.
  intros P V. simpl. rewrite skip_ws_pad by exact P. reflexivity.
Qed.

Lemma reads_none : reads PNone.
Proof.
  intros d pad rest [|f] P _ L; [inversion L|].
  rewrite read_value_step by (auto; apply render_head). reflexivity.
Qed.

Lemma reads_bool (b : bool) : reads (PBool b).
Proof.
  intros d pad rest [|f] P _ L; [inversion L|].
  rewrite read_value_step by (auto; apply render_head).
  destruct b; reflexivity.
Qed.

Lemma reads_str (s : string) : reads (PStr s).
Proof.
  intros d pad rest [|f] P _ L; [inversion L|].
  rewrite read_value_step by (auto; apply render_head).
  change (render d (PStr s) ++ rest)
    with (String dquote ((escape s ++ String dquote EmptyString) ++ rest)).
  rewrite string_append_assoc.
  change (String dquote EmptyString ++ rest) with (String dquote rest).
  change (read_value (S f) (String dquote (escape s ++ String dquote rest)))
    with (match read_string (escape s ++ String dquote rest) with
          | Some (t, r) => Some (PStr t, r)
          | None => None
          end).
  rewrite read_string_escape. reflexivity.
Qed.

Lemma number_head_tests (c : ascii) :
  number_head c ->
  is_ws c = false /\ Ascii.eqb c "{" = false /\ Ascii.eqb c "[" = false
  /\ Ascii.eqb c dquote = false /\ Ascii.eqb c "n" = false
  /\ Ascii.eqb c "t" = false /\ Ascii.eqb c "f" = false.
Proof.
  intros [H| ->]; [|repeat split].
  assert (N : forall c', is_digit c' = false -> Ascii.eqb c c' = false).
  { intros c' F. apply Ascii.eqb_neq. intros ->. congruence. }
  repeat split; try (apply N; reflexivity).
  unfold is_digit, is_ws in *.
  apply andb_true_iff in H. destruct H as [H1 H2].
  apply N.leb_le in H1, H2.
  repeat (apply orb_false_iff; split); apply N.eqb_neq; lia.
Qed.

Lemma reads_int (z : Z) : reads (PInt z).
Proof.
  intros d pad rest [|f] P D L; [inversion L|].
  rewrite read_value_step by (auto; apply render_head).
  change (render d (PInt z)) with (str_int z).
  pose proof (read_number_str_int z rest D) as R.
  destruct (str_int_head z) as [c [s [E H]]]. rewrite E in *.
  destruct (number_head_tests c H) as [W [T1 [T2 [T3 [T4 [T5 T6]]]]]].
  simpl append in *. cbn [read_value skip_ws].
  rewrite W, T1, T2, T3, T4, T5, T6, R. reflexivity.
Qed.

Lemma expect_pad (c c' : ascii) (pad s : string) :
  all_ws pad = true -> is_ws c' = false ->
  expect c (pad ++ String c' s) = if Ascii.eqb c' c then Some s else None.
Proof.
  intros P W. unfold expect. rewrite skip_ws_pad by exact P. simpl.
  rewrite W. reflexivity.
Qed.

Lemma expect_now (c c' : ascii) (s : string) :
  is_ws c' = false ->
  expect c (String c' s) = if Ascii.eqb c' c then Some s else None.
Proof. intros W. now apply (expect_pad c c' EmptyString s). Qed.

Lemma expect_value (c : ascii) (pad s : string) :
  all_ws pad = true -> value_head s -> c = "]"%char \/ c = "}"%char ->
  expect c (pad ++ s) = None.
Proof.
  intros P V C. destruct s as [|c' r]; [destruct V|].
  destruct V as [W [N1 N2]]. rewrite expect_pad by assumption.
  destruct C as [-> | ->]; [apply Ascii.eqb_neq in N1; now rewrite N1|].
  apply Ascii.eqb_neq in N2. now rewrite N2.
Qed.

Lemma items_tail_nil_app (d : nat) (rest : string) :
  (items_tail d [] ++ rest = break d ++ String "]" rest)%string.
Proof. cbn [items_tail]. rewrite string_append_assoc. reflexivity. Qed.

Lemma items_tail_cons_app (d : nat) (y : pyval) (l : list pyval)
    (rest : string) :
  (items_tail d (y :: l) ++ rest
   = String "," (break (S d) ++ render (S d) y ++ items_tail d l ++ rest))%string.
Proof.
  cbn [items_tail]. rewrite !string_append_assoc. reflexivity.
Qed.

Lemma items_tail_no_digit (d : nat) (l : list pyval) (rest : string) :
  no_digit_head (items_tail d l ++ rest).
Proof. destruct l; reflexivity. Qed.

Lemma read_items_tail (d : nat) (l : list pyval) :
  Forall reads l ->
  forall x acc f rest,
    reads x ->
    (String.length (break (S d) ++ render (S d) x ++ items_tail d l) < f)%nat ->
    read_items f acc
      (break (S d) ++ render (S d) x ++ items_tail d l ++ rest)
    = Some (PList (acc ++ image x :: map image l), rest).
Proof.
  induction 1 as [|y l Hy Hl IH]; intros x acc [|f] rest Hx L;
    try (inversion L; fail);
    rewrite !string_length_append in L; pose proof (break_length (S d)) as B;
    cbn [read_items];
    rewrite (Hx (S d) (break (S d)) _ f (all_ws_break _)
               (items_tail_no_digit _ _ _)) by lia.
  - rewrite items_tail_nil_app.
    rewrite !expect_pad by (try apply all_ws_break; reflexivity).
    reflexivity.
  - rewrite items_tail_cons_app.
    rewrite expect_now by reflexivity.
    cbn [Ascii.eqb Bool.eqb].
    rewrite IH; [|exact Hy|].
    + rewrite <- List.app_assoc. reflexivity.
    + cbn [items_tail append] in L. cbn [String.length] in L.
      rewrite !string_length_append in *. lia.
Qed.

Lemma read_value_bracket (f : nat) (s : string) :
  read_value (S f) (String "[" s)
  = match expect "]" s with
    | Some r => Some (PList [], r)
    | None => read_items f [] s
    end.
Proof. reflexivity. Qed.

Lemma read_value_brace (f : nat) (s : string) :
  read_value (S f) (String "{" s)
  = match expect "}" s with
    | Some r => Some (PDict [], r)
    | None => read_members f [] s
    end.
Proof. reflexivity. Qed.

Lemma reads_list (l : list pyval) : Forall reads l -> reads (PList l).
Proof.
  intros H d pad rest [|f] P _ L; [inversion L|].
  rewrite read_value_step by (auto; apply render_head).
  destruct H as [|x l Hx Hl]; [reflexivity|].
  rewrite render_list in *. cbn [append] in *.
  rewrite !string_append_assoc.
  rewrite read_value_bracket.
  rewrite expect_value;
    [| apply all_ws_break | apply render_head | now left].
  apply read_items_tail; auto.
  cbn [String.length] in L. lia.
Qed.

Lemma member_app (d : nat) (kv : pykey * pyval) (tail : string) :
  (member d kv ++ tail
   = String dquote
       (escape (key_text (fst kv))
        ++ String dquote
             (String ":" (String " " (render (S d) (snd kv) ++ tail)))))%string.
Proof.
  unfold member, quoted. cbn [append]. rewrite !string_append_assoc.
  reflexivity.
Qed.

Lemma members_tail_nil_app (d : nat) (rest : string) :
  (members_tail d [] ++ rest = break d ++ String "}" rest)%string.
Proof. cbn [members_tail]. rewrite string_append_assoc. reflexivity. Qed.

Lemma members_tail_cons_app (d : nat) (y : pykey * pyval) (l : pydict)
    (rest : string) :
  (members_tail d (y :: l) ++ rest
   = String "," (break (S d) ++ member d y ++ members_tail d l ++ rest))%string.
Proof. cbn [members_tail]. rewrite !string_append_assoc. reflexivity. Qed.

Lemma members_tail_no_digit (d : nat) (l : pydict) (rest : string) :
  no_digit_head (members_tail d l ++ rest).
Proof. destruct l; reflexivity. Qed.

Lemma member_length (d : nat) (kv : pykey * pyval) :
  (String.length (render (S d) (snd kv)) + 4 <= String.length (member d kv))%nat.
Proof.
  unfold member, quoted. cbn [append String.length].
  rewrite ?string_length_append. cbn [String.length]. rewrite ?string_length_append.
  cbn [String.length]. lia.
Qed.

Lemma reads_space (v : pyval) :
  reads v ->
  forall d rest f,
    no_digit_head rest -> (String.length (render d v) < f)%nat ->
    read_value f (String " " (render d v ++ rest)) = Some (image v, rest).
Proof. intros H d rest f N L. exact (H d " " rest f eq_refl N L). Qed.

Lemma read_members_tail (d : nat) (l : pydict) :
  Forall (fun kv => reads (snd kv)) l ->
  forall kv acc f rest,
    reads (snd kv) ->
    (String.length (break (S d) ++ member d kv ++ members_tail d l) < f)%nat ->
    read_members f acc
      (break (S d) ++ member d kv ++ members_tail d l ++ rest)
    = Some (PDict (fold_left image_step (kv :: l) acc), rest).
Proof.
  induction 1 as [|y l Hy Hl IH]; intros kv acc [|f] rest Hx L;
    try (inversion L; fail);
    rewrite !string_length_append in L; pose proof (break_length (S d)) as B;
    pose proof (member_length d kv) as ML;
    cbn [read_members];
    rewrite member_app;
    rewrite expect_pad by (try apply all_ws_break; reflexivity);
    rewrite Ascii.eqb_refl, read_string_escape;
    rewrite expect_now by reflexivity; cbn [Ascii.eqb Bool.eqb];
    rewrite (reads_space _ Hx (S d) _ f (members_tail_no_digit _ _ _))
      by lia.
  - rewrite members_tail_nil_app.
    rewrite !expect_pad by (try apply all_ws_break; reflexivity).
    reflexivity.
  - rewrite members_tail_cons_app.
    rewrite expect_now by reflexivity.
    cbn [Ascii.eqb Bool.eqb].
    rewrite IH; [reflexivity | exact Hy |].
    cbn [members_tail append] in L. cbn [String.length] in L.
    rewrite !string_length_append in *. lia.
Qed.

Lemma reads_dict (l : pydict) :
  Forall (fun kv => reads (snd kv)) l -> reads (PDict l).
Proof.
  intros H d pad rest [|f] P _ L; [inversion L|].
  rewrite read_value_step by (auto; apply render_head).
  destruct H as [|x l Hx Hl]; [reflexivity|].
  rewrite render_dict in *. cbn [append] in *.
  rewrite !string_append_assoc.
  rewrite read_value_brace.
  rewrite expect_value;
    [| apply all_ws_break | rewrite member_app; repeat split; discriminate
     | now right].
  change (image (PDict (x :: l)))
    with (PDict (fold_left image_step (x :: l) [])).
  apply read_members_tail; auto.
  cbn [String.length] in L. lia.
Qed.

Lemma pyval_induction (P : pyval -> Prop) :
  P PNone -> (forall b, P (PBool b)) -> (forall z, P (PInt z)) ->
  (forall s, P (PStr s)) ->
  (forall l, Forall P l -> P (PList l)) ->
  (forall d, Forall (fun kv => P (snd kv)) d -> P (PDict d)) ->
  forall v, P v.
Proof.
  intros HN HB HI HS HL HD. fix IH 1. intros [|b|z|s|l|d].
  - exact HN.
  - apply HB.
  - apply HI.
  - apply HS.
  - apply HL. induction l as [|x l IHl]; constructor;
      [apply IH | exact IHl].
  - apply HD. induction d as [|[k x] d IHd]; constructor;
      [apply IH | exact IHd].
Qed.

Lemma reads_all (v : pyval) : reads v.
Proof.
  induction v using pyval_induction.
  - apply reads_none.
  - apply reads_bool.
  - apply reads_int.
  - apply reads_str.
  - now apply reads_list.
  - now apply reads_dict.
Qed.

Lemma string_append_nil (s : string) : (s ++ "")%string = s.
Proof. induction s; simpl; congruence. Qed.

Theorem loads_dumps (v : pyval) : loads (dumps v) = Some (image v).
Proof.
  unfold loads, dumps.
  pose proof (reads_all v 0%nat EmptyString EmptyString
                (S (String.length (render 0 v))) eq_refl I
                (Nat.lt_succ_diag_r _)) as R.
  cbn [append] in R. rewrite string_append_nil in R. rewrite R. reflexivity.
Qed.

End RefJsonFacts.

(* ================================================================= *)
(** ** Persistence *)

Section Persistence.
Context {RT : PyRuntime} {JS : JsonLib}.

(** The load returns, whatever the path holds, and touches no file. *)
Lemma load_known_connections_returns (file_path : string) (w : world) :
  exists v w',
    load_known_connections file_path w = (Ok v, w') /\ fs w' = fs w.
Proof.
  unfold load_known_connections. run_m.
  destruct (os_path_exists file_path (fs w)); [|eauto].
  simpl. destruct (read_file file_path (fs w)) as [s|e].
  - destruct (json_loads s); eauto.
  - destruct e; eauto.
Qed.

(** C6. On a path that does not exist, on an empty file and on a file
    whose text is not JSON, [load_known_connections] returns the empty
    mapping, raises nothing and touches no file.  (That the empty text is
    not JSON is the one fact taken from the json module.) *)
Theorem load_resilient (file_path : string) (w : world) :
  json_loads "" = None ->
  os_path_exists file_path (fs w) = false
  \/ file_content file_path (fs w) = Some ""
  \/ (exists s, file_content file_path (fs w) = Some s
                /\ json_loads s = None) ->
  exists w',
    load_known_connections file_path w = (Ok (PDict []), w')
    /\ fs w' = fs w.
Proof.
  intros J H.
  assert (C : os_path_exists file_path (fs w) = false
              \/ exists s, file_content file_path (fs w) = Some s
                           /\ json_loads s = None).
  { destruct H as [H|[H|H]]; [now left | right | now right].
    exists "". split; assumption. }
  clear H. unfold load_known_connections. run_m.
  destruct C as [C|[s [C N]]].
  - rewrite C. eauto.
  - unfold file_content in C. unfold os_path_exists, read_file.
    destruct (fs_lookup file_path (fs w)) as [[c [|] x| |]|] eqn:E;
      try discriminate; inversion C; subst c; simpl; rewrite E; simpl.
    + rewrite N. eauto.
    + eauto.
Qed.

Lemma save_known_connections_returns (connections : pyval)
    (file_path : string) (w : world) :
  exists w', save_known_connections connections file_path w = (Ok tt, w').
Proof.
  unfold save_known_connections. run_m.
  destruct (write_file file_path (json_dumps connections) (fs w)); eauto.
Qed.

Lemma save_known_connections_written (connections : pyval)
    (file_path : string) (w : world) :
  writable file_path (fs w) = true ->
  exists w',
    save_known_connections connections file_path w = (Ok tt, w')
    /\ file_content file_path (fs w') = Some (json_dumps connections)
    /\ (forall q, q <> file_path -> fs_lookup q (fs w') = fs_lookup q (fs w)).
Proof.
  intros W. unfold save_known_connections. run_m.
  destruct (write_file_writable file_path (json_dumps connections) (fs w) W)
    as [f' [E [C O]]].
  rewrite E. eexists. split; [reflexivity|]. simpl. auto.
Qed.

Lemma save_known_connections_failed (connections : pyval)
    (file_path : string) (w : world) :
  writable file_path (fs w) = false ->
  exists e,
    save_known_connections connections file_path w
    = (Ok tt, mkWorld (fs w) (log w ++ [(ERROR, MsgSaveError file_path e)])).
Proof.
  intros W. unfold save_known_connections. run_m.
  destruct (write_file_unwritable file_path (json_dumps connections) (fs w) W)
    as [e E].
  rewrite E. exists e. reflexivity.
Qed.

(** On a path that can be created or rewritten and read, the load that
    follows a save returns what the json module reads back from the text
    it wrote. *)
Lemma save_then_load (m v : pyval) (file_path : string) (w : world) :
  fs_lookup file_path (fs w) = None
  \/ (exists c, fs_lookup file_path (fs w) = Some (File c true true)) ->
  json_loads (json_dumps m) = Some v ->
  exists w1 w2,
    save_known_connections m file_path w = (Ok tt, w1)
    /\ load_known_connections file_path w1 = (Ok v, w2).
Proof.
  intros F J.
  assert (E : write_file file_path (json_dumps m) (fs w)
              = Ok (fs_store file_path (File (json_dumps m) true true) (fs w))).
  { unfold write_file. destruct F as [F|[c F]]; rewrite F; reflexivity. }
  unfold save_known_connections, load_known_connections. run_m.
  rewrite E. do 2 eexists. split; [reflexivity|]. cbn [fs log].
  unfold os_path_exists, read_file.
  rewrite fs_lookup_store, String.eqb_refl. cbn [fs log].
  rewrite fs_lookup_store, String.eqb_refl, J. reflexivity.
Qed.

End Persistence.

(* ================================================================= *)
(** ** One pass of the loop *)

Section Tick.
Context {RT : PyRuntime} {JS : JsonLib}.

Lemma snapshot_wf (os : psutil_view) (conns : list sconn) (acc : pydict) :
  dict_wf acc -> dict_wf (fold_left (add_item os) conns acc).
Proof.
  revert acc. induction conns as [|c conns IH]; simpl; intros acc W; [exact W|].
  apply IH. unfold add_item.
  destruct (snapshot_item os c) as [[k v]|]; [now apply dict_wf_set | exact W].
Qed.

(** What [alert] leaves behind. *)
Lemma alert_effect (new_connections : pydict) (output_file : option string)
    (w : world) :
  exists w',
    alert new_connections output_file w = (Ok tt, w')
    /\ (forall q, writable q (fs w') = writable q (fs w))
    /\ (forall q, configured output_file <> Some q ->
                  fs_lookup q (fs w') = fs_lookup q (fs w))
    /\ (forall p, new_connections <> [] -> configured output_file = Some p ->
                  writable p (fs w) = true ->
                  file_content p (fs w')
                  = Some (json_dumps (PDict new_connections))).
Proof.
  unfold alert. destruct new_connections as [|x l].
  - eexists. split; [reflexivity|]. simpl. repeat split; auto.
    intros p N. now contradiction N.
  - destruct (configured output_file) as [p|].
    + run_m.
      destruct (write_file p (json_dumps (PDict (x :: l))) (fs w))
        as [f|e] eqn:E; eexists; (split; [reflexivity|]); simpl.
      * split; [intros q; now apply (write_file_keeps_writable p q _ _ _ E)|].
        split.
        -- intros q N. unfold write_file in E.
           assert (Q : String.eqb q p = false).
           { apply String.eqb_neq. congruence. }
           destruct (fs_lookup p (fs w)) as [[c r [|]| |]|];
             try discriminate; inversion E; rewrite fs_lookup_store, Q;
             reflexivity.
        -- intros p' _ P W. inversion P. subst p'.
           destruct (write_file_writable p (json_dumps (PDict (x :: l)))
                       (fs w) W) as [f' [E' [C _]]].
           congruence.
      * repeat split; auto. intros p' _ P W. inversion P. subst p'.
        destruct (write_file_writable p (json_dumps (PDict (x :: l)))
                    (fs w) W) as [f' [E' _]].
        congruence.
    + eexists. split; [reflexivity|]. simpl. repeat split; auto.
      intros p _ P. discriminate.
Qed.

(** A pass over known connections that are a mapping runs to its end. *)
Lemma tick_dict (args : arguments) (os : psutil_view) (known : pydict)
    (conns : list sconn) (w : world) :
  net_connections os = Ok conns ->
  let current := fold_left (add_item os) conns [] in
  let new_connections := new_entries known current in
  let merged := PDict (dict_update known current) in
  exists w1 w2 w3,
    tick args os (PDict known) w
    = (Ok (mkTick current new_connections merged), w3)
    /\ fs w1 = fs w
    /\ alert new_connections (arg_output args) w1 = (Ok tt, w2)
    /\ save_known_connections merged (arg_file args) w2 = (Ok tt, w3).
Proof.
  intros H current new_connections merged.
  destruct (get_current_connections_returns os conns w H) as [w0 [E0 F0]].
  fold current in E0.
  assert (W : dict_wf current) by (apply snapshot_wf; constructor).
  pose (w1 := mkWorld (fs w0) (log w0 ++ new_warnings new_connections)).
  destruct (alert_effect new_connections (arg_output args) w1)
    as [w2 [E2 _]].
  destruct (save_known_connections_returns merged (arg_file args) w2)
    as [w3 E3].
  exists w1, w2, w3. repeat split; try assumption.
  unfold tick, bind at 1. rewrite E0.
  unfold check_for_new_connections, bind at 1. unfold bind at 1.
  rewrite new_entries_loop by (auto; reflexivity). simpl.
  fold new_connections. fold w1. unfold bind at 1. rewrite E2.
  unfold ret at 1. unfold bind at 1. unfold lift, py_update.
  unfold bind. fold merged. rewrite E3. reflexivity.
Qed.

(** A pass that runs to its end had a mapping to start from. *)
Lemma tick_inv (args : arguments) (os : psutil_view) (known : pyval)
    (w w' : world) (t : tick_result) :
  tick args os known w = (Ok t, w') ->
  exists d,
    known = PDict d
    /\ tick_new t = new_entries d (tick_current t)
    /\ tick_known t = PDict (dict_update d (tick_current t)).
Proof.
  intros H.
  destruct (net_connections os) as [conns|e] eqn:N.
  - destruct known as [| | | | |d].
    6:{ destruct (tick_dict args os d conns w N) as [w1 [w2 [w3 [E _]]]].
        rewrite E in H. inversion H. subst t. exists d. repeat split. }
    all: exfalso; revert H; unfold tick, bind at 1;
      destruct (get_current_connections os w) as [[cur|x] u];
      try discriminate; unfold bind at 1;
      destruct (check_for_new_connections _ cur (arg_output args) u)
        as [[nw|y] u']; try discriminate;
      unfold bind, lift, py_update; discriminate.
  - exfalso. revert H. unfold tick, get_current_connections, bind, lift.
    rewrite N. discriminate.
Qed.

(** An output path that cannot be written: [alert] logs the failure and
    changes no file. *)
Lemma alert_unwritable (new_connections : pydict)
    (output_file : option string) (p : string) (w : world) :
  new_connections <> [] -> configured output_file = Some p ->
  writable p (fs w) = false ->
  exists e,
    alert new_connections output_file w
    = (Ok tt, mkWorld (fs w) (log w ++ [(ERROR, MsgWriteError p e)])).
Proof.
  intros NE C U. unfold alert. rewrite C.
  destruct new_connections as [|x l]; [congruence|].
  destruct (write_file_unwritable p (json_dumps (PDict (x :: l))) (fs w) U)
    as [e E].
  exists e. run_m. rewrite E. reflexivity.
Qed.

(** The save keeps the log it finds and the files of the other paths. *)
Lemma save_known_connections_frame (connections : pyval)
    (file_path : string) (w w' : world) :
  save_known_connections connections file_path w = (Ok tt, w') ->
  (forall x, In x (log w) -> In x (log w'))
  /\ (forall q, q <> file_path -> fs_lookup q (fs w') = fs_lookup q (fs w))
  /\ (writable file_path (fs w) = false -> fs w' = fs w).
Proof.
  unfold save_known_connections. run_m.
  destruct (write_file file_path (json_dumps connections) (fs w))
    as [f|e] eqn:E; intros H; inversion H; subst w'; cbn [fs log].
  - split; [auto|]. split.
    + intros q N. unfold write_file in E.
      assert (Q : String.eqb q file_path = false)
        by now apply String.eqb_neq.
      destruct (fs_lookup file_path (fs w)) as [[c r [|]| |]|];
        try discriminate; inversion E; rewrite fs_lookup_store, Q;
        reflexivity.
    + intros U.
      destruct (write_file_unwritable file_path (json_dumps connections)
                  (fs w) U) as [e E'].
      congruence.
  - split; [intros x I; apply in_or_app; now left|]. split; reflexivity.
Qed.

(** C8 (amended). A pass that finds new connections, with an output path
    configured.  When the path can be written and is not the path of the
    known-connections file, the pass leaves in the output file exactly the
    text of the new connections, whatever the file held before.  When the
    path cannot be written, the failure is logged and the path is left as
    it was.  When the path can be written and is the path of the
    known-connections file, the save that ends the pass overwrites it: the
    file holds the text of all the known connections. *)
Theorem output_file_holds_new_connections
    (args : arguments) (os : psutil_view) (known : pydict)
    (conns : list sconn) (w : world) (p : string) :
  net_connections os = Ok conns ->
  configured (arg_output args) = Some p ->
  exists t w',
    tick args os (PDict known) w = (Ok t, w')
    /\ tick_new t = new_entries known (tick_current t)
    /\ (tick_new t <> [] ->
        (writable p (fs w) = true -> arg_file args <> p ->
         file_content p (fs w') = Some (json_dumps (PDict (tick_new t))))
        /\ (writable p (fs w) = false ->
            fs_lookup p (fs w') = fs_lookup p (fs w)
            /\ exists e, In (ERROR, MsgWriteError p e) (log w'))
        /\ (writable p (fs w) = true -> arg_file args = p ->
            file_content p (fs w') = Some (json_dumps (tick_known t)))).
Proof.
  intros N C.
  destruct (tick_dict args os known conns w N) as [w1 [w2 [w3 [E [F1 [A S]]]]]].
  eexists. exists w3. split; [exact E|]. simpl. split; [reflexivity|].
  intros NE.
  destruct (alert_effect (new_entries known (fold_left (add_item os) conns []))
              (arg_output args) w1) as [u [A' [K [_ G]]]].
  rewrite A in A'. inversion A'. subst u.
  destruct (save_known_connections_frame _ _ _ _ S) as [Lg [Fr Un]].
  split; [|split].
  - intros W D. specialize (G p NE C). rewrite F1 in G. specialize (G W).
    unfold file_content in *. rewrite Fr by congruence. exact G.
  - intros U. rewrite <- F1 in U.
    destruct (alert_unwritable _ _ p w1 NE C U) as [e A2].
    rewrite A in A2. inversion A2. subst w2. cbn [fs log] in *. split.
    + destruct (String.eqb (arg_file args) p) eqn:Q.
      * apply String.eqb_eq in Q. rewrite Q in Un. rewrite (Un U), F1.
        reflexivity.
      * apply String.eqb_neq in Q. rewrite Fr by congruence. now rewrite F1.
    + exists e. apply Lg. apply in_or_app. right. now left.
  - intros W D. subst p.
    assert (W2 : writable (arg_file args) (fs w2) = true).
    { rewrite K, F1. exact W. }
    destruct (save_known_connections_written
                (PDict (dict_update known (fold_left (add_item os) conns [])))
                (arg_file args) w2 W2) as [w3' [S' [Ct _]]].
    rewrite S in S'. inversion S'. subst w3'. exact Ct.
Qed.

(** C9. When the path cannot be written, [save_known_connections] returns
    normally, leaves every file as it was and logs the failure; a pass of
    the loop whose save fails still runs to its end, and the loop carries
    on with the merged mapping. *)
Theorem save_failure_contained (m : pyval) (p : string) (w : world) :
  writable p (fs w) = false ->
  (exists e,
      write_file p (json_dumps m) (fs w) = Raise e
      /\ save_known_connections m p w
         = (Ok tt, mkWorld (fs w) (log w ++ [(ERROR, MsgSaveError p e)])))
  /\ (forall args os known conns,
        arg_file args = p -> net_connections os = Ok conns ->
        exists t w' e,
          tick args os (PDict known) w = (Ok t, w')
          /\ tick_known t = PDict (dict_update known (tick_current t))
          /\ In (ERROR, MsgSaveError p e) (log w')).
Proof.
  intros W. split.
  - destruct (write_file_unwritable p (json_dumps m) (fs w) W) as [e E].
    exists e. split; [exact E|].
    unfold save_known_connections. run_m. rewrite E. reflexivity.
  - intros args os known conns P N.
    destruct (tick_dict args os known conns w N)
      as [w1 [w2 [w3 [E [F1 [A S]]]]]].
    destruct (alert_effect (new_entries known (fold_left (add_item os) conns []))
                (arg_output args) w1) as [u [A' [K _]]].
    rewrite A in A'. inversion A'. subst u.
    assert (W2 : writable (arg_file args) (fs w2) = false).
    { rewrite K, F1, P. exact W. }
    destruct (save_known_connections_failed
                (PDict (dict_update known (fold_left (add_item os) conns [])))
                (arg_file args) w2 W2) as [e S'].
    rewrite S in S'. inversion S'.
    eexists. exists w3, e. split; [exact E|]. split; [reflexivity|].
    subst w3. simpl. rewrite P. apply in_or_app. right. now left.
Qed.

End Tick.

(* ================================================================= *)
(** ** The loop *)

Section Loop.
Context {RT : PyRuntime} {JS : JsonLib}.

Lemma new_entries_subset (known current : pydict) (k : pykey) :
  dict_mem k (new_entries known current) = true -> dict_mem k current = true.
Proof.
  unfold dict_mem. rewrite new_entries_get.
  destruct (dict_mem k known); [discriminate | auto].
Qed.

Lemma new_entries_known (known current : pydict) (k : pykey) :
  dict_mem k known = true -> dict_mem k (new_entries known current) = false.
Proof.
  intros H. unfold dict_mem at 1. rewrite new_entries_get, H. reflexivity.
Qed.

(** The sleep changes nothing; it returns, or raises an exception the
    loop does not handle. *)
Lemma time_sleep_cases (secs : Z) (w : world) :
  time_sleep secs w = (Ok tt, w)
  \/ exists e, time_sleep secs w = (Raise (Exception e), w).
Proof.
  unfold time_sleep, raise, ret.
  destruct (Z.ltb sleep_max (Z.abs secs)); [right; eexists; reflexivity|].
  destruct (Z.ltb secs 0); [right; eexists; reflexivity | now left].
Qed.

Lemma time_sleep_returns (args : arguments) (w : world) :
  sleeps args -> time_sleep (arg_interval args) w = (Ok tt, w).
Proof.
  unfold sleeps, time_sleep, ret. intros [L U].
  replace (Z.ltb sleep_max (Z.abs (arg_interval args))) with false
    by (symmetry; apply Z.ltb_ge; rewrite Z.abs_eq; lia).
  replace (Z.ltb (arg_interval args) 0) with false
    by (symmetry; apply Z.ltb_ge; lia).
  reflexivity.
Qed.

(** Every pass of the loop took its diff against a mapping, and that
    mapping has all the keys the loop started with. *)
Lemma polling_loop_known (args : arguments) (ticks : list psutil_view)
    (d0 : pydict) (w : world) (j : nat) (kj : pyval) (tj : tick_result) :
  nth_error (fst (polling_loop args ticks (PDict d0) w)) j = Some (kj, tj) ->
  exists d,
    kj = PDict d
    /\ tick_new tj = new_entries d (tick_current tj)
    /\ forall k, dict_mem k d0 = true -> dict_mem k d = true.
Proof.
  revert d0 w j. induction ticks as [|os ticks IH]; intros d0 w j H.
  - destruct j; discriminate.
  - cbn [polling_loop] in H.
    destruct (tick args os (PDict d0) w) as [[t|e] w'] eqn:E;
      [|destruct j; discriminate].
    destruct (tick_inv _ _ _ _ _ _ E) as [d [D [Nw Kn]]].
    inversion D. subst d.
    destruct (time_sleep (arg_interval args) w') as [[u|e] w2].
    + destruct (polling_loop args ticks (tick_known t) w2)
        as [passes outcome] eqn:P.
      cbn [fst] in H. destruct j as [|j]; simpl in H.
      * inversion H. subst kj tj. exists d0. auto.
      * rewrite Kn in P.
        specialize (IH (dict_update d0 (tick_current t)) w2 j).
        rewrite P in IH. destruct (IH H) as [d [Kj [Nj Sub]]].
        exists d. repeat split; auto.
        intros k M. apply Sub. now apply dict_keys_update_incl.
    + cbn [fst] in H. destruct j as [|j]; simpl in H.
      * inversion H. subst kj tj. exists d0. auto.
      * destruct j; discriminate.
Qed.

(** C10. In a run of the polling loop, a fingerprint of the snapshot of
    one pass is a key of the known connections at the diff of every later
    pass and is not among the new connections of that pass; so no
    fingerprint is reported as new in two passes.  The passes are those the
    loop of [main] carries out, whatever the arguments and however the run
    ends. *)
Theorem no_repeated_alerts
    (args : arguments) (ticks : list psutil_view) (known0 : pyval)
    (w : world) (i j : nat) (ki kj : pyval) (ti tj : tick_result) :
  nth_error (fst (polling_loop args ticks known0 w)) i = Some (ki, ti) ->
  nth_error (fst (polling_loop args ticks known0 w)) j = Some (kj, tj) ->
  (i < j)%nat ->
  (forall k, dict_mem k (tick_current ti) = true ->
             (exists d, kj = PDict d /\ dict_mem k d = true)
             /\ dict_mem k (tick_new tj) = false)
  /\ (forall k, dict_mem k (tick_new ti) = true ->
                dict_mem k (tick_new tj) = false).
Proof.
  revert known0 w i j. induction ticks as [|os ticks IH];
    intros known0 w i j Hi Hj L.
  - destruct i; discriminate.
  - cbn [polling_loop] in Hi, Hj.
    destruct (tick args os known0 w) as [[t|e] w'] eqn:E;
      [|destruct i; discriminate].
    destruct j as [|j]; [lia|].
    destruct (time_sleep (arg_interval args) w') as [[u|e] w2];
      [|destruct j; discriminate].
    destruct (polling_loop args ticks (tick_known t) w2)
      as [passes outcome] eqn:P.
    cbn [fst] in Hi, Hj. simpl in Hj.
    destruct i as [|i]; simpl in Hi.
    + inversion Hi. subst ki ti.
      destruct (tick_inv _ _ _ _ _ _ E) as [d [D [Nw Kn]]].
      rewrite Kn in P.
      pose proof (polling_loop_known args ticks
                    (dict_update d (tick_current t)) w2 j kj tj) as Q.
      rewrite P in Q. destruct (Q Hj) as [dj [Kj [Nj Sub]]].
      assert (A : forall k, dict_mem k (tick_current t) = true ->
                            dict_mem k dj = true).
      { intros k M. apply Sub. now apply dict_keys_update_new. }
      split.
      * intros k M. split; [exists dj; auto|].
        rewrite Nj. apply new_entries_known. auto.
      * intros k M. rewrite Nj. apply new_entries_known. apply A.
        rewrite Nw in M. now apply new_entries_subset in M.
    + specialize (IH (tick_known t) w2 i j). rewrite P in IH.
      apply IH; auto. lia.
Qed.

(** A pass is recorded when it reached its save; when the sleep returns
    and each of the reports gave a recorded pass, the loop ended at the
    interrupt. *)
Lemma polling_loop_interrupted (args : arguments) (ticks : list psutil_view)
    (known : pyval) (w : world) :
  sleeps args ->
  length (fst (polling_loop args ticks known w)) = length ticks ->
  exists w',
    snd (polling_loop args ticks known w) = (Raise KeyboardInterrupt, w').
Proof.
  intros V. revert known w.
  induction ticks as [|os ticks IH]; intros known w H.
  - eexists. reflexivity.
  - cbn [polling_loop] in *.
    destruct (tick args os known w) as [[t|e] w']; [|discriminate].
    rewrite (time_sleep_returns args w' V) in *.
    destruct (polling_loop args ticks (tick_known t) w')
      as [passes outcome] eqn:P.
    cbn [fst snd] in *. simpl in H.
    specialize (IH (tick_known t) w'). rewrite P in IH. apply IH.
    simpl. lia.
Qed.

End Loop.

(* ================================================================= *)
(** ** The properties on the scenarios *)

Import Scenario.

Lemma snapshot_now_wf : dict_wf snapshot_now.
Proof.
  unfold dict_wf. vm_compute.
  repeat (constructor; [simpl; intuition discriminate|]). constructor.
Qed.

Lemma check_for_new_connections_diff_witness :
  dict_wf snapshot_now
  /\ (exists w',
        check_for_new_connections (PDict []) snapshot_now None nothing
        = (Ok (new_entries [] snapshot_now), w')).
Proof.
  split; [exact snapshot_now_wf|].
  exact (proj1 (check_for_new_connections_diff [] snapshot_now None nothing
                  snapshot_now_wf)).
Defined.

Lemma update_monotone_witness :
  dict_wf snapshot_now
  /\ exists merged,
       py_update (PDict [(KStr "52567121949539034", PNone)]) snapshot_now
       = Ok (PDict merged)
       /\ dict_mem (KStr "52567121949539034") merged = true
       /\ dict_mem (KInt 52567121949539034) merged = true.
Proof.
  split; [exact snapshot_now_wf|].
  destruct (update_monotone [(KStr "52567121949539034", PNone)] snapshot_now
              snapshot_now_wf) as [merged [E [K [C _]]]].
  exists merged. split; [exact E|]. split.
  - apply K. reflexivity.
  - apply C. reflexivity.
Defined.



Lemma fingerprint_of_identity_fields_witness :
  py_item (connection_details (Some 100) "10.0.0.1:5000"
             "93.184.216.34:443" "ESTABLISHED" "curl"
             "AddressFamily.AF_INET" "SocketKind.SOCK_STREAM") "process_name"
  <> py_item (connection_details (Some 100) "10.0.0.1:5000"
                "93.184.216.34:443" "ESTABLISHED" "wget"
                "AddressFamily.AF_INET6" "SocketKind.SOCK_DGRAM")
       "process_name"
  /\ KInt (connection_hash (Some 100) "10.0.0.1:5000" "93.184.216.34:443"
             "ESTABLISHED")
     = KInt (connection_hash (pid established_again) (format_address local)
               (format_address remote) (status established_again)).
Proof.
  split; [discriminate|].
  apply (fingerprint_of_identity_fields psutil_now psutil_later
           established established_again nothing nothing nothing nothing
           _ _
           (connection_details (Some 100) "10.0.0.1:5000"
              "93.184.216.34:443" "ESTABLISHED" "curl"
              "AddressFamily.AF_INET" "SocketKind.SOCK_STREAM")
           (connection_details (Some 100) "10.0.0.1:5000"
              "93.184.216.34:443" "ESTABLISHED" "wget"
              "AddressFamily.AF_INET6" "SocketKind.SOCK_DGRAM"));
    reflexivity.
Defined.

Lemma load_resilient_witness :
  (json_loads "" = None
   /\ file_content "known_connections.json" (fs broken) = Some "{ 42: "
   /\ json_loads "{ 42: " = None)
  /\ exists w',
       load_known_connections "known_connections.json" broken
       = (Ok (PDict []), w')
       /\ fs w' = fs broken.
Proof.
  split; [repeat split|].
  apply (load_resilient "known_connections.json" broken); [reflexivity|].
  right. right. exists "{ 42: ". split; reflexivity.
Defined.

Lemma snapshot_needs_both_addresses_witness :
  net_connections psutil_now
  = Ok [listening; established; lingering; guarded]
  /\ (forall acc w0,
        record_connection psutil_now acc listening w0 = (Ok acc, w0)).
Proof.
  split; [reflexivity|].
  intros acc w0.
  apply (proj2 (snapshot_needs_both_addresses psutil_now
                  [listening; established; lingering; guarded] nothing
                  eq_refl)).
  right. reflexivity.
Defined.

Lemma output_file_holds_new_connections_witness :
  configured (arg_output (with_output "new_connections.json"))
  = Some "new_connections.json"
  /\ configured (arg_output (with_output "known_connections.json"))
     = Some "known_connections.json"
  /\ file_content "new_connections.json" (fs stale_report) = Some "{}"
  /\ (exists t w',
        tick (with_output "new_connections.json") psutil_now
          (PDict snapshot_later) stale_report = (Ok t, w')
        /\ length (tick_new t) = 2%nat
        /\ tick_known t <> PDict (tick_new t)
        /\ file_content "new_connections.json" (fs w')
           = Some (json_dumps (PDict (tick_new t))))
  /\ (exists t w' e,
        tick (with_output "new_connections.json") psutil_now
          (PDict snapshot_later) no_report = (Ok t, w')
        /\ fs_lookup "new_connections.json" (fs w') = Some Directory
        /\ In (ERROR, MsgWriteError "new_connections.json" e) (log w'))
  /\ (exists t w',
        tick (with_output "known_connections.json") psutil_now
          (PDict snapshot_later) (saved snapshot_later) = (Ok t, w')
        /\ file_content "known_connections.json" (fs w')
           = Some (json_dumps (tick_known t))).
Proof.
  split; [reflexivity|]. split; [reflexivity|]. split; [reflexivity|].
  split; [|split].
  - destruct (output_file_holds_new_connections
                (with_output "new_connections.json") psutil_now
                snapshot_later [listening; established; lingering; guarded]
                stale_report "new_connections.json" eq_refl eq_refl)
      as [t [w' [E [N C]]]].
    assert (L : length (tick_new t) = 2%nat
                /\ tick_known t <> PDict (tick_new t)).
    { pose proof E as E'. vm_compute in E'. inversion E'.
      split; [reflexivity | discriminate]. }
    exists t, w'. split; [exact E|]. split; [exact (proj1 L)|].
    split; [exact (proj2 L)|].
    apply C; [|reflexivity|discriminate].
    intros Z. rewrite Z in L. destruct L as [L _]. discriminate L.
  - destruct (output_file_holds_new_connections
                (with_output "new_connections.json") psutil_now
                snapshot_later [listening; established; lingering; guarded]
                no_report "new_connections.json" eq_refl eq_refl)
      as [t [w' [E [N C]]]].
    assert (L : length (tick_new t) = 2%nat).
    { pose proof E as E'. vm_compute in E'. inversion E'. reflexivity. }
    destruct C as [_ [[F [e I]] _]].
    + intros Z. rewrite Z in L. discriminate L.
    + reflexivity.
    + exists t, w', e. split; [exact E|]. split; [|exact I].
      rewrite F. reflexivity.
  - destruct (output_file_holds_new_connections
                (with_output "known_connections.json") psutil_now
                snapshot_later [listening; established; lingering; guarded]
                (saved snapshot_later) "known_connections.json"
                eq_refl eq_refl)
      as [t [w' [E [N C]]]].
    assert (L : length (tick_new t) = 2%nat).
    { pose proof E as E'. vm_compute in E'. inversion E'. reflexivity. }
    exists t, w'. split; [exact E|].
    apply C; [|reflexivity|reflexivity].
    intros Z. rewrite Z in L. discriminate L.
Defined.

Lemma save_failure_contained_witness :
  writable "known_connections.json" (fs blocked) = false
  /\ exists e,
       save_known_connections (PDict snapshot_now) "known_connections.json"
         blocked
       = (Ok tt,
          mkWorld (fs blocked)
            (log blocked
             ++ [(ERROR, MsgSaveError "known_connections.json" e)])).
Proof.
  split; [reflexivity|].
  destruct (proj1 (save_failure_contained (PDict snapshot_now)
                     "known_connections.json" blocked eq_refl))
    as [e [_ E]].
  exists e. exact E.
Defined.

Lemma no_repeated_alerts_witness :
  exists ki ti kj tj,
    nth_error (fst (polling_loop default_arguments
                      [psutil_now; psutil_later] (PDict []) nothing)) 0 = Some (ki, ti)
    /\ nth_error (fst (polling_loop default_arguments
                         [psutil_now; psutil_later] (PDict []) nothing)) 1 = Some (kj, tj)
    /\ dict_mem (KInt 836384063996612202) (tick_new ti) = true
    /\ dict_mem (KInt 836384063996612202) (tick_current tj) = true
    /\ dict_mem (KInt 836384063996612202) (tick_new tj) = false.
Proof.
  destruct (nth_error (fst (polling_loop default_arguments
                              [psutil_now; psutil_later] (PDict []) nothing))
              0) as [[ki ti]|] eqn:Ei;
    [|vm_compute in Ei; discriminate].
  destruct (nth_error (fst (polling_loop default_arguments
                              [psutil_now; psutil_later] (PDict []) nothing))
              1) as [[kj tj]|] eqn:Ej;
    [|vm_compute in Ej; discriminate].
  exists ki, ti, kj, tj.
  assert (Ni : dict_mem (KInt 836384063996612202) (tick_new ti) = true).
  { pose proof Ei as C. vm_compute in C. inversion C. reflexivity. }
  assert (Cj : dict_mem (KInt 836384063996612202) (tick_current tj) = true).
  { pose proof Ej as C. vm_compute in C. inversion C. reflexivity. }
  repeat split; try assumption.
  apply (proj2 (no_repeated_alerts default_arguments
                  [psutil_now; psutil_later] (PDict []) nothing 0 1
                  ki kj ti tj Ei Ej (Nat.lt_0_succ 0))
           (KInt 836384063996612202) Ni).
Defined.

(** With the reference codec, the mapping loaded after a save is the
    image of the saved one: every key has become its text. *)
Lemma reload_gives_image (m : pyval) (file_path : string) (w : world) :
  fs_lookup file_path (fs w) = None
  \/ (exists c, fs_lookup file_path (fs w) = Some (File c true true)) ->
  exists w1 w2,
    save_known_connections m file_path w = (Ok tt, w1)
    /\ load_known_connections file_path w1 = (Ok (RefJson.image m), w2).
Proof.
  intros F. apply save_then_load; [exact F|].
  apply RefJsonFacts.loads_dumps.
Qed.

Lemma image_step_keys (d acc : pydict) (z : Z) :
  dict_get (KInt z) acc = None ->
  dict_get (KInt z) (fold_left RefJson.image_step d acc) = None.
Proof.
  revert acc. induction d as [|kv d IH]; simpl; intros acc H; [exact H|].
  apply IH. unfold RefJson.image_step. rewrite dict_get_set. exact H.
Qed.

(** No fingerprint survives the reload: whatever mapping is saved, the
    loaded one has no integer key. *)
Lemma reload_has_no_fingerprint (d : pydict) (file_path : string)
    (w : world) (z : Z) :
  fs_lookup file_path (fs w) = None
  \/ (exists c, fs_lookup file_path (fs w) = Some (File c true true)) ->
  exists w1 w2 loaded,
    save_known_connections (PDict d) file_path w = (Ok tt, w1)
    /\ load_known_connections file_path w1 = (Ok (PDict loaded), w2)
    /\ dict_mem (KInt z) loaded = false.
Proof.
  intros F. destruct (reload_gives_image (PDict d) file_path w F)
    as [w1 [w2 [S L]]].
  exists w1, w2. eexists. split; [exact S|]. split; [exact L|].
  apply dict_mem_false. now apply image_step_keys.
Qed.

(** C1 (what the code does). Saving the snapshot of the scenario and
    loading the file again gives a mapping whose keys are the decimal
    texts of the fingerprints, not the fingerprints: no fingerprint of the
    saved mapping is a key of the loaded one, and against the loaded
    mapping every connection of the saved one is new. *)
Theorem reload_loses_fingerprints :
  let loaded :=
    map (fun kv => (KStr (RefJson.key_text (fst kv)), snd kv)) snapshot_now in
  save_known_connections (PDict snapshot_now) "known_connections.json" nothing
  = (Ok tt, saved snapshot_now)
  /\ load_known_connections "known_connections.json" (saved snapshot_now)
     = (Ok (PDict loaded), saved snapshot_now)
  /\ dict_keys snapshot_now
     = [KInt 836384063996612202; KInt 1952755437648144053;
        KInt 52567121949539034]
  /\ dict_keys loaded
     = [KStr "836384063996612202"; KStr "1952755437648144053";
        KStr "52567121949539034"]
  /\ (forall k, dict_mem k snapshot_now = true -> dict_mem k loaded = false)
  /\ PDict loaded <> PDict snapshot_now
  /\ new_entries loaded snapshot_now = snapshot_now.
Proof.
  intros loaded. repeat split; try (vm_compute; reflexivity).
  - intros [z|t]; vm_compute; [reflexivity | discriminate].
  - vm_compute. discriminate.
Qed.

(** C8 (as stated, refuted). With the output path set to the path of the
    known-connections file, a pass that finds new connections ends with
    the whole known set in that file, not the new connections; with an
    output path that cannot be written, the pass ends with no output file
    at all. *)
Lemma output_file_not_always_the_new_connections :
  (exists t w',
      tick (with_output "known_connections.json") psutil_now
        (PDict snapshot_later) nothing = (Ok t, w')
      /\ tick_new t <> []
      /\ configured (arg_output (with_output "known_connections.json"))
         = Some "known_connections.json"
      /\ file_content "known_connections.json" (fs w')
         = Some (json_dumps (tick_known t))
      /\ file_content "known_connections.json" (fs w')
         <> Some (json_dumps (PDict (tick_new t))))
  /\ (exists t w',
        tick (with_output "new_connections.json") psutil_now (PDict [])
          no_report = (Ok t, w')
        /\ tick_new t <> []
        /\ configured (arg_output (with_output "new_connections.json"))
           = Some "new_connections.json"
        /\ file_content "new_connections.json" (fs w') = None).
Proof.
  split.
  - destruct (tick (with_output "known_connections.json") psutil_now
                (PDict snapshot_later) nothing) as [[t|e] w'] eqn:E;
      vm_compute in E; [|discriminate].
    inversion E. exists t, w'. subst t w'.
    split; [reflexivity|]. repeat split; try (vm_compute; reflexivity);
      vm_compute; discriminate.
  - destruct (tick (with_output "new_connections.json") psutil_now
                (PDict []) no_report) as [[t|e] w'] eqn:E;
      vm_compute in E; [|discriminate].
    inversion E. exists t, w'. subst t w'.
    split; [reflexivity|]. repeat split; try (vm_compute; reflexivity);
      vm_compute; discriminate.
Qed.

(* ================================================================= *)
(** ** More on the snapshot *)

Section SnapshotMore.
Context {RT : PyRuntime} {JS : JsonLib}.

Lemma fold_add_item_app (os : psutil_view) (l1 l2 : list sconn)
    (acc : pydict) :
  fold_left (add_item os) (l1 ++ l2)%list acc
  = fold_left (add_item os) l2 (fold_left (add_item os) l1 acc).
Proof. apply fold_left_app. Qed.

Lemma fold_add_item_view (os : psutil_view) (listed : result error (list sconn))
    (l : list sconn) (acc : pydict) :
  fold_left (add_item (mkPsutil listed (pid_exists os) (Process_name os)))
    l acc
  = fold_left (add_item os) l acc.
Proof.
  revert acc. induction l as [|c l IH]; simpl; intros acc; [reflexivity|].
  rewrite IH. reflexivity.
Qed.

(** X2. A name lookup that raises anything but NoSuchProcess and AccessDenied
    costs the snapshot that one record: the loop body logs the error and
    leaves the snapshot as it was, and the snapshot of the whole list is
    the snapshot of the list without the record. *)
Theorem failed_lookup_skips_one_record
    (os : psutil_view) (conns1 conns2 : list sconn) (c : sconn)
    (la ra : addr) (p : Z) (e : error) (w : world) :
  net_connections os = Ok (conns1 ++ c :: conns2)%list ->
  laddr c = Some la -> raddr c = Some ra ->
  pid c = Some p -> pid_exists os p = true ->
  Process_name os p = Raise e -> e <> NoSuchProcess -> e <> AccessDenied ->
  (forall acc w0,
      record_connection os acc c w0
      = (Ok acc,
         mkWorld (fs w0) (log w0 ++ [(ERROR, MsgConnectionError e)])%list))
  /\ exists snapshot w1 w2,
       get_current_connections os w = (Ok snapshot, w1)
       /\ get_current_connections
            (mkPsutil (Ok (conns1 ++ conns2)%list) (pid_exists os)
               (Process_name os)) w
          = (Ok snapshot, w2).
Proof.
  intros N L R P X F E1 E2. split.
  - intros acc w0. unfold record_connection, resolve_process_name.
    rewrite L, R, P, X. run_m. rewrite F.
    destruct e; try reflexivity; contradiction.
  - assert (S : forall acc, add_item os acc c = acc).
    { intros acc. unfold add_item, snapshot_item, settled_name, fingerprint.
      rewrite L, R, P, X, F.
      destruct e; try reflexivity; contradiction. }
    destruct (get_current_connections_returns os _ w N) as [w1 [G1 _]].
    destruct (get_current_connections_returns
                (mkPsutil (Ok (conns1 ++ conns2)%list) (pid_exists os)
                   (Process_name os)) (conns1 ++ conns2)%list w eq_refl)
      as [w2 [G2 _]].
    exists (fold_left (add_item os) (conns1 ++ c :: conns2)%list []), w1, w2.
    split; [exact G1|]. rewrite G2. f_equal. f_equal.
    rewrite fold_add_item_view, !fold_add_item_app. simpl. now rewrite S.
Qed.

Lemma dict_set_length_le (k : pykey) (v : pyval) (d : pydict) :
  (length (dict_set k v d) <= S (length d))%nat.
Proof.
  induction d as [|[q x] d IH]; simpl; [lia|].
  destruct (pykey_eqb k q); simpl; lia.
Qed.

Lemma fold_add_item_length (os : psutil_view) (conns : list sconn)
    (acc : pydict) :
  (length (fold_left (add_item os) conns acc)
   <= length acc + length conns)%nat.
Proof.
  revert acc. induction conns as [|c conns IH]; simpl; intros acc; [lia|].
  specialize (IH (add_item os acc c)).
  assert (length (add_item os acc c) <= S (length acc))%nat.
  { unfold add_item. destruct (snapshot_item os c) as [[k v]|]; [|lia].
    apply dict_set_length_le. }
  lia.
Qed.

Lemma fold_add_item_int_keys (os : psutil_view) (conns : list sconn)
    (acc : pydict) :
  (forall k, In k (dict_keys acc) -> exists h, k = KInt h) ->
  forall k, In k (dict_keys (fold_left (add_item os) conns acc)) ->
            exists h, k = KInt h.
Proof.
  revert acc. induction conns as [|c conns IH]; simpl; intros acc H; [exact H|].
  apply IH. intros k. unfold add_item.
  destruct (snapshot_item os c) as [[q x]|] eqn:E; [|apply H].
  rewrite dict_keys_set. destruct (dict_mem q acc); [apply H|].
  intros I. apply in_app_or in I. destruct I as [I|[I|[]]]; [now apply H|].
  subst q. apply snapshot_item_inv in E.
  destruct E as [la [ra [n [_ [_ [_ [K _]]]]]]]. eauto.
Qed.

(** X1. The snapshot has integer keys, each once, and no more items than
    psutil listed raw records; taking it changes no file. *)
Theorem snapshot_shape (os : psutil_view) (conns : list sconn) (w : world) :
  net_connections os = Ok conns ->
  exists snapshot w',
    get_current_connections os w = (Ok snapshot, w')
    /\ fs w' = fs w
    /\ dict_wf snapshot
    /\ (length snapshot <= length conns)%nat
    /\ forall k, In k (dict_keys snapshot) -> exists h, k = KInt h.
Proof.
  intros N. destruct (get_current_connections_returns os conns w N)
    as [w' [E F]].
  exists (fold_left (add_item os) conns []), w'.
  split; [exact E|]. split; [exact F|]. split; [|split].
  - apply snapshot_wf. constructor.
  - apply (fold_add_item_length os conns []).
  - apply fold_add_item_int_keys. intros k [].
Qed.

Lemma fold_add_item_other (os : psutil_view) (conns : list sconn)
    (acc : pydict) (k : pykey) :
  (forall c k' v, In c conns -> snapshot_item os c = Some (k', v) ->
                  k' <> k) ->
  dict_get k (fold_left (add_item os) conns acc) = dict_get k acc.
Proof.
  revert acc. induction conns as [|c conns IH]; simpl; intros acc H;
    [reflexivity|].
  rewrite IH by (intros c' k' v I; apply H; now right).
  unfold add_item. destruct (snapshot_item os c) as [[q x]|] eqn:E;
    [|reflexivity].
  rewrite dict_get_set.
  destruct (pykey_eqb k q) eqn:Q; [|reflexivity].
  apply pykey_eqb_eq in Q. subst q. exfalso.
  apply (H c k x); auto.
Qed.

(** X3. Of the raw records that share a fingerprint the last one listed is the
    one the snapshot keeps: a record that the loop body stores and that no
    later record of the list shares its fingerprint with is in the
    snapshot with its own details. *)
Theorem last_record_wins
    (os : psutil_view) (before after : list sconn) (c : sconn)
    (la ra : addr) (n : string) (w : world) :
  net_connections os = Ok (before ++ c :: after)%list ->
  laddr c = Some la -> raddr c = Some ra -> settled_name os c = Some n ->
  (forall c', In c' after -> fingerprint c' <> fingerprint c) ->
  exists snapshot w',
    get_current_connections os w = (Ok snapshot, w')
    /\ dict_get (KInt (connection_hash (pid c) (format_address la)
                         (format_address ra) (status c))) snapshot
       = Some (connection_details (pid c) (format_address la)
                 (format_address ra) (status c) n
                 (str_family (family c)) (str_type (type c))).
Proof.
  intros N L R S A.
  destruct (get_current_connections_returns os _ w N) as [w' [E _]].
  exists (fold_left (add_item os) (before ++ c :: after)%list []), w'.
  split; [exact E|].
  rewrite fold_add_item_app. simpl.
  assert (F : fingerprint c
              = Some (connection_hash (pid c) (format_address la)
                        (format_address ra) (status c))).
  { unfold fingerprint. now rewrite L, R. }
  rewrite fold_add_item_other.
  - unfold add_item, snapshot_item, details. rewrite F, S, L, R.
    rewrite dict_get_set, pykey_eqb_refl. reflexivity.
  - intros c' k' v I Sc K. subst k'.
    apply snapshot_item_inv in Sc.
    destruct Sc as [la' [ra' [n' [L' [R' [_ [Kh _]]]]]]].
    apply (A c' I). rewrite F. unfold fingerprint. rewrite L', R'.
    congruence.
Qed.

End SnapshotMore.

Lemma failed_lookup_skips_one_record_witness :
  (Process_name psutil_flaky 100 = Raise (OtherError "zombie"))
  /\ exists snapshot w1 w2,
       get_current_connections psutil_flaky nothing = (Ok snapshot, w1)
       /\ get_current_connections
            (mkPsutil (Ok ([listening] ++ [lingering; guarded])%list)
               (pid_exists psutil_flaky) (Process_name psutil_flaky))
            nothing
          = (Ok snapshot, w2).
Proof.
  split; [reflexivity|].
  apply (proj2 (failed_lookup_skips_one_record psutil_flaky [listening]
                  [lingering; guarded] established local remote 100
                  (OtherError "zombie") nothing
                  eq_refl eq_refl eq_refl eq_refl eq_refl eq_refl
                  ltac:(discriminate) ltac:(discriminate))).
Defined.

Lemma snapshot_shape_witness :
  net_connections psutil_now = Ok [listening; established; lingering; guarded]
  /\ exists snapshot w',
       get_current_connections psutil_now nothing = (Ok snapshot, w')
       /\ (length snapshot <= 4)%nat.
Proof.
  split; [reflexivity|].
  destruct (snapshot_shape psutil_now _ nothing eq_refl)
    as [snapshot [w' [E [_ [_ [B _]]]]]].
  exists snapshot, w'. split; [exact E | exact B].
Defined.

Lemma last_record_wins_witness :
  settled_name psutil_later established_again = Some "wget"
  /\ exists snapshot w',
       get_current_connections
         (mkPsutil (Ok ([established] ++ established_again :: [])%list)
            (fun _ => true) (names "wget")) nothing
       = (Ok snapshot, w')
       /\ exists v, dict_get (KInt 836384063996612202) snapshot = Some v
                    /\ py_item v "type" = Some (PStr "SocketKind.SOCK_DGRAM").
Proof.
  split; [reflexivity|].
  destruct (last_record_wins
              (mkPsutil (Ok ([established] ++ established_again :: [])%list)
                 (fun _ => true) (names "wget"))
              [established] [] established_again local remote "wget" nothing
              eq_refl eq_refl eq_refl eq_refl)
    as [snapshot [w' [E G]]].
  - intros c' [].
  - exists snapshot, w'. split; [exact E|].
    eexists. split; [exact G | reflexivity].
Defined.

(* ================================================================= *)
(** ** More on loading *)

Section LoadMore.
Context {RT : PyRuntime} {JS : JsonLib}.

(** The outcome of the load, by what the path holds. *)
Lemma load_outcome (file_path : string) (w : world) :
  load_known_connections file_path w
  = match fs_lookup file_path (fs w) with
    | None | Some Orphan => (Ok (PDict []), w)
    | Some (File s true _) =>
        match json_loads s with
        | Some v => (Ok v, w)
        | None =>
            (Ok (PDict []),
             mkWorld (fs w)
               (log w ++ [(ERROR, MsgDecodeError file_path)])%list)
        end
    | Some (File _ false _) =>
        (Ok (PDict []),
         mkWorld (fs w) (log w ++ [(ERROR, MsgLoadError PermissionError)])%list)
    | Some Directory =>
        (Ok (PDict []),
         mkWorld (fs w)
           (log w ++ [(ERROR, MsgLoadError IsADirectoryError)])%list)
    end.
Proof.
  unfold load_known_connections. run_m.
  unfold os_path_exists, read_file.
  destruct (fs_lookup file_path (fs w)) as [[s [|] x| |]|] eqn:E;
    cbn; rewrite ?E; cbn; try reflexivity.
  destruct (json_loads s); reflexivity.
Qed.

(** X4. What [load_known_connections] returns and logs, by what the path
    holds: nothing there gives the empty mapping and no log record; a
    readable file gives the value of its JSON text, whatever value that
    is, and no log record, or the empty mapping and one decode error when
    the text is not JSON; a file that may not be read and a directory give
    the empty mapping and one load error.  No file changes. *)
Theorem load_known_connections_cases (file_path : string) (w : world) :
  load_known_connections file_path w
  = match fs_lookup file_path (fs w) with
    | None | Some Orphan => (Ok (PDict []), w)
    | Some (File s true _) =>
        match json_loads s with
        | Some v => (Ok v, w)
        | None =>
            (Ok (PDict []),
             mkWorld (fs w)
               (log w ++ [(ERROR, MsgDecodeError file_path)])%list)
        end
    | Some (File _ false _) =>
        (Ok (PDict []),
         mkWorld (fs w) (log w ++ [(ERROR, MsgLoadError PermissionError)])%list)
    | Some Directory =>
        (Ok (PDict []),
         mkWorld (fs w)
           (log w ++ [(ERROR, MsgLoadError IsADirectoryError)])%list)
    end.
Proof. apply load_outcome. Qed.

End LoadMore.

(* ================================================================= *)
(** ** More on the diff *)

Section DiffMore.
Context {RT : PyRuntime} {JS : JsonLib}.

(** The loop over the current connections only logs; it ends normally or
    with the TypeError of a membership test. *)
Lemma note_loop_outcome (known : pyval) (current acc : pydict) (w : world) :
  exists r w',
    for_each current (note_if_new known) acc w = (r, w')
    /\ fs w' = fs w
    /\ ((exists d, r = Ok d) \/ r = Raise (Exception TypeError)).
Proof.
  revert acc w. induction current as [|[k v] current IH]; intros acc w.
  - exists (Ok acc), w. repeat split. left. eauto.
  - cbn [for_each]. unfold bind at 1. unfold note_if_new at 1.
    unfold bind at 1. unfold lift at 1.
    destruct (py_contains known k) as [[|]|e] eqn:P; cbn.
    + apply IH.
    + run_m.
      destruct (IH (dict_set k v acc)
                  (mkWorld (fs w) (log w ++ [(WARNING, MsgNewConnection v)])))
        as [r [w' [E [F O]]]].
      exists r, w'. split; [exact E|]. split; [exact F | exact O].
    + exists (Raise (Exception e)), w. repeat split. right.
      destruct known as [| | |s|l|d]; simpl in P; try congruence.
      destruct k; congruence.
Qed.

(** The check leaves every path but the output path alone. *)
Lemma check_keeps_other_paths
    (known : pyval) (current : pydict) (output_file : option string)
    (w : world) (q : string) :
  configured output_file <> Some q ->
  fs_lookup q (fs (snd (check_for_new_connections known current output_file w)))
  = fs_lookup q (fs w).
Proof.
  intros N. unfold check_for_new_connections. unfold bind at 1.
  destruct (note_loop_outcome known current [] w) as [r [w1 [E [F O]]]].
  rewrite E. destruct O as [[d ->]| ->]; [|cbn; now rewrite F].
  unfold bind at 1.
  destruct (alert_effect d output_file w1) as [w2 [A [_ [K _]]]].
  rewrite A. cbn. rewrite K by exact N. now rewrite F.
Qed.

(** X7. [check_for_new_connections] writes to the configured output path and
    to no other: whatever the known connections are, and whether it
    returns or raises, every other path holds what it held. *)
Theorem check_for_new_connections_frame
    (known : pyval) (current : pydict) (output_file : option string)
    (w : world) (q : string) :
  configured output_file <> Some q ->
  fs_lookup q (fs (snd (check_for_new_connections known current output_file w)))
  = fs_lookup q (fs w).
Proof. apply check_keeps_other_paths. Qed.

(** Against a mapping, the check is the alert on the new entries, after
    their warnings. *)
Lemma check_for_new_connections_dict
    (known current : pydict) (output_file : option string) (w : world) :
  dict_wf current ->
  check_for_new_connections (PDict known) current output_file w
  = match alert (new_entries known current) output_file
            (mkWorld (fs w)
               (log w ++ new_warnings (new_entries known current))%list) with
    | (Ok _, w') => (Ok (new_entries known current), w')
    | (Raise e, w') => (Raise e, w')
    end.
Proof.
  intros W. unfold check_for_new_connections. unfold bind at 1.
  rewrite new_entries_loop by (auto; reflexivity). cbn [List.app].
  unfold bind at 1.
  destruct (alert _ _ _) as [[[]|e] w']; reflexivity.
Qed.

(** X5. With no output path (none given, or the empty string),
    [check_for_new_connections] changes no file and logs one warning for
    each new connection, in the order of the snapshot, then one
    information record: that nothing is new, or that there is no output
    file. *)
Theorem check_without_output
    (known current : pydict) (output_file : option string) (w : world) :
  dict_wf current -> configured output_file = None ->
  check_for_new_connections (PDict known) current output_file w
  = (Ok (new_entries known current),
     mkWorld (fs w)
       (log w ++ new_warnings (new_entries known current)
        ++ [(INFO, match new_entries known current with
                   | [] => MsgNoNewConnections
                   | _ :: _ => MsgNoOutputFile
                   end)])%list).
Proof.
  intros W C. rewrite check_for_new_connections_dict by exact W.
  unfold alert. rewrite C.
  destruct (new_entries known current); cbn;
    rewrite <- List.app_assoc; reflexivity.
Qed.

(** X6. A failed write of the output file does not reach the caller: the diff
    is returned all the same, no file changes, and the log ends with the
    warnings and the write error. *)
Theorem output_failure_contained
    (known current : pydict) (output_file : option string) (p : string)
    (w : world) :
  dict_wf current -> new_entries known current <> [] ->
  configured output_file = Some p -> writable p (fs w) = false ->
  exists e,
    write_file p (json_dumps (PDict (new_entries known current))) (fs w)
    = Raise e
    /\ check_for_new_connections (PDict known) current output_file w
       = (Ok (new_entries known current),
          mkWorld (fs w)
            (log w ++ new_warnings (new_entries known current)
             ++ [(ERROR, MsgWriteError p e)])%list).
Proof.
  intros W NE C U.
  destruct (write_file_unwritable p
              (json_dumps (PDict (new_entries known current))) (fs w) U)
    as [e E].
  exists e. split; [exact E|].
  rewrite check_for_new_connections_dict by exact W.
  unfold alert. rewrite C.
  destruct (new_entries known current) as [|x l] eqn:D; [congruence|].
  run_m. cbn [fs log]. rewrite E. cbn.
  rewrite <- List.app_assoc. reflexivity.
Qed.

Lemma new_entries_same_keys (known1 known2 current : pydict) :
  (forall k, dict_mem k known1 = dict_mem k known2) ->
  new_entries known1 current = new_entries known2 current.
Proof.
  intros H. unfold new_entries. apply filter_ext. intros [k v]. simpl.
  now rewrite H.
Qed.

(** X8. The diff looks at the keys of the known connections only: two known
    mappings with the same keys give the same result, log and files,
    whatever records they hold. *)
Theorem diff_ignores_known_records
    (known1 known2 current : pydict) (output_file : option string)
    (w : world) :
  dict_wf current ->
  (forall k, dict_mem k known1 = dict_mem k known2) ->
  check_for_new_connections (PDict known1) current output_file w
  = check_for_new_connections (PDict known2) current output_file w.
Proof.
  intros W H. rewrite !check_for_new_connections_dict by exact W.
  now rewrite (new_entries_same_keys known1 known2 current H).
Qed.

End DiffMore.

Lemma check_for_new_connections_frame_witness :
  configured (Some "new_connections.json") <> Some "known_connections.json"
  /\ fs_lookup "known_connections.json"
       (fs (snd (check_for_new_connections (PList [PInt 1]) snapshot_now
                   (Some "new_connections.json") listed)))
     = fs_lookup "known_connections.json" (fs listed).
Proof.
  split; [discriminate|].
  apply (check_for_new_connections_frame (PList [PInt 1]) snapshot_now
           (Some "new_connections.json") listed "known_connections.json").
  discriminate.
Defined.

Lemma check_without_output_witness :
  (dict_wf snapshot_now /\ configured (Some "") = None)
  /\ fs (snd (check_for_new_connections (PDict snapshot_later) snapshot_now
                (Some "") nothing))
     = fs nothing.
Proof.
  split; [split; [exact snapshot_now_wf | reflexivity]|].
  rewrite (check_without_output snapshot_later snapshot_now (Some "") nothing
             snapshot_now_wf eq_refl).
  reflexivity.
Defined.

Lemma output_failure_contained_witness :
  (configured (Some "new_connections.json") = Some "new_connections.json"
   /\ writable "new_connections.json" (fs no_report) = false)
  /\ exists e w',
       check_for_new_connections (PDict []) snapshot_now
         (Some "new_connections.json") no_report
       = (Ok (new_entries [] snapshot_now), w')
       /\ fs w' = fs no_report
       /\ In (ERROR, MsgWriteError "new_connections.json" e) (log w').
Proof.
  split; [split; reflexivity|].
  destruct (output_failure_contained [] snapshot_now
              (Some "new_connections.json") "new_connections.json" no_report
              snapshot_now_wf)
    as [e [_ E]].
  - vm_compute. discriminate.
  - reflexivity.
  - reflexivity.
  - exists e. eexists. split; [exact E|]. split; [reflexivity|].
    cbn [log]. apply in_or_app. right. apply in_or_app. right. now left.
Defined.

Lemma diff_ignores_known_records_witness :
  dict_wf snapshot_now
  /\ check_for_new_connections (PDict snapshot_later) snapshot_now None nothing
     = check_for_new_connections
         (PDict [(KInt 836384063996612202, PNone)]) snapshot_now None nothing.
Proof.
  split; [exact snapshot_now_wf|].
  apply (diff_ignores_known_records snapshot_later
           [(KInt 836384063996612202, PNone)] snapshot_now None nothing
           snapshot_now_wf).
  intros k. unfold dict_mem. vm_compute (dict_keys snapshot_later).
  change snapshot_later
    with (fold_left (add_item psutil_later) [established_again] []).
  cbn [fold_left]. unfold add_item.
  destruct (snapshot_item psutil_later established_again) as [[q x]|] eqn:S;
    vm_compute in S; inversion S. subst q x.
  cbn [dict_set dict_get]. destruct (pykey_eqb k _); reflexivity.
Defined.

(* ================================================================= *)
(** ** More on the passes of the loop *)

Section TickMore.
Context {RT : PyRuntime} {JS : JsonLib}.

Lemma snapshot_of_listed (os : psutil_view) (conns : list sconn) :
  net_connections os = Ok conns ->
  snapshot_of os = fold_left (add_item os) conns [].
Proof. intros N. unfold snapshot_of. now rewrite N. Qed.

(** A pass over a mapping, with the connections listed and the
    known-connections path writable: what it returns and what it leaves
    in the file. *)
Lemma tick_saves (args : arguments) (os : psutil_view) (known : pydict)
    (conns : list sconn) (w : world) :
  net_connections os = Ok conns ->
  writable (arg_file args) (fs w) = true ->
  exists w',
    tick args os (PDict known) w
    = (Ok (mkTick (snapshot_of os) (new_entries known (snapshot_of os))
             (PDict (dict_update known (snapshot_of os)))), w')
    /\ file_content (arg_file args) (fs w')
       = Some (json_dumps (PDict (dict_update known (snapshot_of os))))
    /\ writable (arg_file args) (fs w') = true.
Proof.
  intros N W. rewrite (snapshot_of_listed os conns N).
  destruct (tick_dict args os known conns w N)
    as [w1 [w2 [w3 [E [F1 [A S]]]]]].
  exists w3. split; [exact E|].
  destruct (alert_effect (new_entries known (fold_left (add_item os) conns []))
              (arg_output args) w1) as [u [A' [K _]]].
  rewrite A in A'. inversion A'. subst u.
  assert (W2 : writable (arg_file args) (fs w2) = true).
  { rewrite K, F1. exact W. }
  destruct (save_known_connections_written
              (PDict (dict_update known (fold_left (add_item os) conns [])))
              (arg_file args) w2 W2) as [u [S' [C _]]].
  rewrite S in S'. inversion S'. subst u. split; [exact C|].
  unfold save_known_connections in S. run_m.
  destruct (write_file (arg_file args) _ (fs w2)) as [f|e] eqn:X;
    inversion S; subst w3; cbn [fs] in *.
  - now rewrite (write_file_keeps_writable _ (arg_file args) _ _ _ X).
  - exact W2.
Qed.

(** X9. After a pass the known-connections file holds the whole merged
    mapping, when its path can be written: the known connections and the
    snapshot of the pass together, also when nothing was new and also when
    the output path is the same path. *)
Theorem tick_persists_known
    (args : arguments) (os : psutil_view) (known : pydict)
    (conns : list sconn) (w : world) :
  net_connections os = Ok conns ->
  writable (arg_file args) (fs w) = true ->
  exists t w',
    tick args os (PDict known) w = (Ok t, w')
    /\ tick_known t = PDict (dict_update known (tick_current t))
    /\ file_content (arg_file args) (fs w')
       = Some (json_dumps (tick_known t)).
Proof.
  intros N W. destruct (tick_saves args os known conns w N W)
    as [w' [E [C _]]].
  eexists. exists w'. split; [exact E|]. split; [reflexivity | exact C].
Qed.

Lemma dict_set_same (k : pykey) (v : pyval) (d : pydict) :
  dict_get k d = Some v -> dict_set k v d = d.
Proof.
  induction d as [|[q x] d IH]; simpl; [discriminate|].
  destruct (pykey_eqb k q) eqn:E.
  - intros H. inversion H. reflexivity.
  - intros H. now rewrite IH.
Qed.

Lemma dict_update_absorbs (d other : pydict) :
  (forall k v, In (k, v) other -> dict_get k d = Some v) ->
  dict_update d other = d.
Proof.
  unfold dict_update. induction other as [|[k v] other IH]; simpl; intros H;
    [reflexivity|].
  rewrite dict_set_same by (apply H; now left).
  apply IH. intros q x I. apply H. now right.
Qed.

Lemma dict_update_idempotent (d other : pydict) :
  dict_wf other ->
  dict_update (dict_update d other) other = dict_update d other.
Proof.
  intros W. apply dict_update_absorbs. intros k v I.
  rewrite dict_get_update by exact W.
  now rewrite (dict_wf_get k v other W I).
Qed.

(** X10. A second pass over the same connections finds nothing new and leaves
    the known connections as the first pass left them. *)
Theorem second_pass_is_quiet
    (args : arguments) (os : psutil_view) (known : pydict)
    (conns : list sconn) (w : world) :
  net_connections os = Ok conns ->
  exists t1 w1 t2 w2,
    tick args os (PDict known) w = (Ok t1, w1)
    /\ tick args os (tick_known t1) w1 = (Ok t2, w2)
    /\ tick_new t2 = []
    /\ tick_known t2 = tick_known t1.
Proof.
  intros N.
  destruct (tick_dict args os known conns w N) as [u1 [u2 [wa [E1 _]]]].
  destruct (tick_dict args os
              (dict_update known (fold_left (add_item os) conns []))
              conns wa N) as [u3 [u4 [wb [E2 _]]]].
  do 2 eexists. exists (mkTick (fold_left (add_item os) conns [])
                          (new_entries
                             (dict_update known
                                (fold_left (add_item os) conns []))
                             (fold_left (add_item os) conns []))
                          (PDict (dict_update
                                    (dict_update known
                                       (fold_left (add_item os) conns []))
                                    (fold_left (add_item os) conns [])))), wb.
  split; [exact E1|]. split; [exact E2|]. cbn [tick_new tick_known]. split.
  - apply new_entries_nil. intros k I. apply dict_keys_update_new.
    now apply dict_mem_In.
  - f_equal. apply dict_update_idempotent. apply snapshot_wf. constructor.
Qed.

(** A pass over anything but a mapping raises before the save. *)
Lemma tick_without_mapping
    (args : arguments) (os : psutil_view) (known : pyval)
    (conns : list sconn) (w : world) :
  net_connections os = Ok conns -> is_mapping known = false ->
  exists e w',
    tick args os known w = (Raise (Exception e), w')
    /\ (e = TypeError \/ e = AttributeError)
    /\ forall q, configured (arg_output args) <> Some q ->
                 fs_lookup q (fs w') = fs_lookup q (fs w).
Proof.
  intros N M.
  destruct (get_current_connections_returns os conns w N) as [w0 [E0 F0]].
  pose proof (check_keeps_other_paths known
                (fold_left (add_item os) conns []) (arg_output args) w0)
    as Fr.
  unfold tick, bind at 1. rewrite E0. unfold bind at 1.
  revert Fr. unfold check_for_new_connections at 1 2. unfold bind at 1 3.
  destruct (note_loop_outcome known (fold_left (add_item os) conns []) [] w0)
    as [r [w1 [E1 [F1 O]]]].
  rewrite E1. destruct O as [[d ->]| ->].
  - unfold bind at 1 3.
    destruct (alert_effect d (arg_output args) w1) as [w2 [A _]].
    rewrite A. cbn [snd ret]. intros Fr.
    exists AttributeError, w2. split; [|split; [now right|]].
    + unfold bind, lift, py_update.
      destruct known; try (simpl in M; discriminate M);
        rewrite A; reflexivity.
    + intros q Q. rewrite (Fr q Q). now rewrite F0.
  - cbn [snd]. intros Fr. exists TypeError, w1.
    split; [reflexivity|]. split; [now left|].
    intros q Q. rewrite (Fr q Q). now rewrite F0.
Qed.

(** X11. Known connections that are not a mapping (the file held other JSON)
    stop the pass with a TypeError or an AttributeError before the save:
    no path but the output path is written. *)
Theorem tick_needs_a_mapping
    (args : arguments) (os : psutil_view) (known : pyval)
    (conns : list sconn) (w : world) :
  net_connections os = Ok conns -> is_mapping known = false ->
  exists e w',
    tick args os known w = (Raise (Exception e), w')
    /\ (e = TypeError \/ e = AttributeError)
    /\ forall q, configured (arg_output args) <> Some q ->
                 fs_lookup q (fs w') = fs_lookup q (fs w).
Proof. apply tick_without_mapping. Qed.

(** A pass whose listing of the connections fails raises that failure at
    once, with nothing logged or written. *)
Lemma tick_listing_fails (args : arguments) (os : psutil_view)
    (known : pyval) (e : error) (w : world) :
  net_connections os = Raise e ->
  tick args os known w = (Raise (Exception e), w).
Proof.
  intros N. unfold tick, get_current_connections, bind, lift.
  now rewrite N.
Qed.

(** X12. When psutil fails to list the connections the loop stops there:
    with an interval the sleep accepts, the passes before the failure ran
    to their end, the failure leaves the loop, and the passes that would
    follow do not run. *)
Theorem listing_failure_stops_loop
    (args : arguments) (before after : list psutil_view)
    (failing : psutil_view) (e : error) (known : pydict) (w : world) :
  sleeps args ->
  Forall (fun os => exists conns, net_connections os = Ok conns) before ->
  net_connections failing = Raise e ->
  exists passes w',
    polling_loop args (before ++ failing :: after)%list (PDict known) w
    = (passes, (Raise (Exception e), w'))
    /\ polling_loop args (before ++ [failing])%list (PDict known) w
       = (passes, (Raise (Exception e), w'))
    /\ length passes = length before.
Proof.
  intros V B N. revert known w.
  induction B as [|os before [conns C] _ IH]; intros known w.
  - exists [], w. cbn [List.app polling_loop].
    rewrite (tick_listing_fails args failing (PDict known) e w N).
    repeat split; reflexivity.
  - cbn [List.app polling_loop].
    destruct (tick_dict args os known conns w C) as [u1 [u2 [w3 [E _]]]].
    rewrite E, (time_sleep_returns args w3 V). cbn [tick_known].
    destruct (IH (dict_update known (fold_left (add_item os) conns [])) w3)
      as [passes [w' [P1 [P2 L]]]].
    rewrite P1, P2. eexists. exists w'.
    split; [reflexivity|]. split; [reflexivity|]. simpl. now rewrite L.
Qed.

(** A pass ends normally or with an exception of the program, never with
    the interrupt. *)
Lemma tick_outcome (args : arguments) (os : psutil_view) (known : pyval)
    (w : world) :
  exists r w',
    tick args os known w = (r, w')
    /\ ((exists t, r = Ok t) \/ exists e, r = Raise (Exception e)).
Proof.
  destruct (net_connections os) as [conns|e] eqn:N.
  - destruct (is_mapping known) eqn:M.
    + destruct known; try discriminate.
      destruct (tick_dict args os d conns w N) as [u1 [u2 [w3 [E _]]]].
      do 2 eexists. split; [exact E|]. left. eauto.
    + destruct (tick_without_mapping args os known conns w N M)
        as [e [w' [E _]]].
      do 2 eexists. split; [exact E|]. right. eauto.
  - do 2 eexists. split; [apply (tick_listing_fails _ _ _ e); exact N|].
    right. eauto.
Qed.

Lemma polling_loop_outcome (args : arguments) (ticks : list psutil_view)
    (known : pyval) (w : world) :
  exists e w', snd (polling_loop args ticks known w) = (Raise e, w').
Proof.
  revert known w. induction ticks as [|os ticks IH]; intros known w.
  - do 2 eexists. reflexivity.
  - cbn [polling_loop].
    destruct (tick_outcome args os known w) as [r [w' [E [[t ->]|[e ->]]]]];
      rewrite E; [|do 2 eexists; reflexivity].
    destruct (time_sleep_cases (arg_interval args) w') as [S|[e S]];
      rewrite S; [|do 2 eexists; reflexivity].
    destruct (IH (tick_known t) w') as [e [w2 P]].
    destruct (polling_loop args ticks (tick_known t) w') as [passes outcome].
    exists e, w2. exact P.
Qed.

(** X13. [main] lets no exception out: whatever the arguments, the files and
    what psutil reports, it returns, and its log ends with the record of
    the interrupt or of the error that stopped the loop, then with the
    record that the program terminated. *)
Theorem main_returns (args : arguments) (ticks : list psutil_view)
    (w : world) :
  exists w' earlier,
    main args ticks w = (Ok tt, w')
    /\ (log w' = (earlier ++ [(INFO, MsgExiting); (INFO, MsgTerminated)])%list
        \/ exists e,
             log w' = (earlier ++ [(ERROR, MsgUnexpected e);
                                   (INFO, MsgTerminated)])%list).
Proof.
  unfold main. unfold bind at 1.
  assert (D : exists w0,
             (if arg_debug args then logging DEBUG MsgDebugEnabled
              else ret tt) w = (Ok tt, w0)).
  { destruct (arg_debug args); eexists; reflexivity. }
  destruct D as [w0 ->]. unfold bind at 1.
  destruct (load_known_connections_returns (arg_file args) w0)
    as [known [w1 [L _]]].
  rewrite L. unfold bind at 1. unfold try_except.
  destruct (polling_loop_outcome args ticks known w1) as [e [w2 P]].
  cbv beta. rewrite P. destruct e as [e|]; unfold bind, logging; cbn [fs log].
  - eexists. exists (log w2). split; [reflexivity|]. right. exists e.
    cbn [log]. rewrite <- List.app_assoc. reflexivity.
  - eexists. exists (log w2). split; [reflexivity|]. left.
    cbn [log]. rewrite <- List.app_assoc. reflexivity.
Qed.

(** The passes of a run that starts from a mapping, with an interval
    the sleep accepts, every listing of the connections succeeding and a
    writable known-connections path: every pass runs to its end, the loop
    ends with the interrupt and the file holds the known connections
    merged with every snapshot. *)
Lemma polling_loop_persists (args : arguments) (ticks : list psutil_view)
    (known : pydict) (w : world) :
  sleeps args ->
  Forall (fun os => exists conns, net_connections os = Ok conns) ticks ->
  writable (arg_file args) (fs w) = true ->
  exists passes w',
    polling_loop args ticks (PDict known) w
    = (passes, (Raise KeyboardInterrupt, w'))
    /\ length passes = length ticks
    /\ writable (arg_file args) (fs w') = true
    /\ (ticks <> [] ->
        file_content (arg_file args) (fs w')
        = Some (json_dumps (PDict (known_after known ticks)))).
Proof.
  intros V T. revert known w.
  induction T as [|os ticks [conns C] _ IH]; intros known w W.
  - exists [], w. split; [reflexivity|]. split; [reflexivity|].
    split; [exact W|]. congruence.
  - cbn [polling_loop].
    destruct (tick_saves args os known conns w C W) as [w1 [E [F W1]]].
    rewrite E, (time_sleep_returns args w1 V). cbn [tick_known].
    destruct (IH (dict_update known (snapshot_of os)) w1 W1)
      as [passes [w' [P [L [W' F']]]]].
    rewrite P. eexists. exists w'. split; [reflexivity|].
    split; [simpl; now rewrite L|]. split; [exact W'|]. intros _.
    unfold known_after. cbn [fold_left]. fold (known_after
      (dict_update known (snapshot_of os)) ticks).
    destruct ticks as [|os' ticks'].
    + cbn in P. inversion P. subst w'. exact F.
    + apply F'. discriminate.
Qed.

(** X14. A first run, from no known-connections file to the interrupt: with
    an interval the sleep accepts, when every listing of the connections
    succeeds, [main] returns, the file it leaves holds the snapshots of
    all passes merged, and the log ends with the interrupt and the
    termination. *)
Theorem first_run_persists_all_snapshots
    (args : arguments) (ticks : list psutil_view) (w : world) :
  sleeps args ->
  fs_lookup (arg_file args) (fs w) = None ->
  Forall (fun os => exists conns, net_connections os = Ok conns) ticks ->
  ticks <> [] ->
  exists w' earlier,
    main args ticks w = (Ok tt, w')
    /\ file_content (arg_file args) (fs w')
       = Some (json_dumps (PDict (known_after [] ticks)))
    /\ log w' = (earlier ++ [(INFO, MsgExiting); (INFO, MsgTerminated)])%list.
Proof.
  intros V A T NE. unfold main. unfold bind at 1.
  assert (D : exists w0,
             (if arg_debug args then logging DEBUG MsgDebugEnabled
              else ret tt) w = (Ok tt, w0) /\ fs w0 = fs w).
  { destruct (arg_debug args); eexists; split; reflexivity. }
  destruct D as [w0 [-> F0]]. unfold bind at 1.
  rewrite load_outcome, F0, A.
  unfold bind at 1. unfold try_except.
  assert (W : writable (arg_file args) (fs w0) = true).
  { unfold writable. now rewrite F0, A. }
  destruct (polling_loop_persists args ticks [] w0 V T W)
    as [passes [w1 [P [_ [_ C]]]]].
  cbv beta. rewrite P. cbn [snd]. unfold bind, logging; cbn [fs log].
  eexists. exists (log w1). split; [reflexivity|]. cbn [fs log].
  split; [now apply C|]. rewrite <- List.app_assoc. reflexivity.
Qed.

(** The sleep refuses an interval below zero. *)
Lemma time_sleep_negative (secs : Z) (w : world) :
  secs < 0 ->
  exists e,
    time_sleep secs w = (Raise (Exception e), w)
    /\ (e = ValueError \/ e = OverflowError).
Proof.
  intros I. unfold time_sleep, raise.
  destruct (Z.ltb sleep_max (Z.abs secs)).
  - exists OverflowError. split; [reflexivity | now right].
  - replace (Z.ltb secs 0) with true by (symmetry; now apply Z.ltb_lt).
    exists ValueError. split; [reflexivity | now left].
Qed.

(** X18. An interval below zero ends the run after its first pass: the pass
    runs to its save, then the sleep raises ValueError (OverflowError
    when the interval is beyond what the clock holds) and no further pass
    runs.  On a first run [main] returns with the snapshot of that one
    pass in the known-connections file and the error logged before the
    termination. *)
Theorem negative_interval_ends_run
    (args : arguments) (os : psutil_view) (rest : list psutil_view)
    (conns : list sconn) (w : world) :
  arg_interval args < 0 ->
  net_connections os = Ok conns ->
  (forall known w0, exists t w' e,
      tick args os (PDict known) w0 = (Ok t, w')
      /\ polling_loop args (os :: rest) (PDict known) w0
         = ([(PDict known, t)], (Raise (Exception e), w'))
      /\ (e = ValueError \/ e = OverflowError))
  /\ (fs_lookup (arg_file args) (fs w) = None ->
      exists w' earlier e,
        main args (os :: rest) w = (Ok tt, w')
        /\ (e = ValueError \/ e = OverflowError)
        /\ file_content (arg_file args) (fs w')
           = Some (json_dumps (PDict (known_after [] [os])))
        /\ log w' = (earlier ++ [(ERROR, MsgUnexpected e);
                                 (INFO, MsgTerminated)])%list).
Proof.
  intros I N. split.
  - intros known w0.
    destruct (tick_dict args os known conns w0 N) as [u1 [u2 [w3 [E _]]]].
    destruct (time_sleep_negative (arg_interval args) w3 I) as [e [S Ee]].
    eexists. exists w3, e. split; [exact E|]. split; [|exact Ee].
    cbn [polling_loop]. rewrite E, S. reflexivity.
  - intros A. unfold main. unfold bind at 1.
    assert (D : exists w0,
               (if arg_debug args then logging DEBUG MsgDebugEnabled
                else ret tt) w = (Ok tt, w0) /\ fs w0 = fs w).
    { destruct (arg_debug args); eexists; split; reflexivity. }
    destruct D as [w0 [-> F0]]. unfold bind at 1.
    rewrite load_outcome, F0, A.
    unfold bind at 1. unfold try_except.
    assert (W : writable (arg_file args) (fs w0) = true).
    { unfold writable. now rewrite F0, A. }
    destruct (tick_saves args os [] conns w0 N W) as [w1 [E [F _]]].
    destruct (time_sleep_negative (arg_interval args) w1 I) as [e [S Ee]].
    cbv beta. cbn [polling_loop]. rewrite E, S. cbn [snd].
    unfold bind, logging; cbn [fs log].
    eexists. exists (log w1), e. split; [reflexivity|]. cbn [fs log].
    split; [exact Ee|]. split; [exact F|].
    rewrite <- List.app_assoc. reflexivity.
Qed.

End TickMore.

Lemma tick_persists_known_witness :
  writable (arg_file (with_output "known_connections.json")) (fs nothing)
  = true
  /\ exists t w',
       tick (with_output "known_connections.json") psutil_now
         (PDict snapshot_later) nothing = (Ok t, w')
       /\ file_content "known_connections.json" (fs w')
          = Some (json_dumps (tick_known t)).
Proof.
  split; [reflexivity|].
  destruct (tick_persists_known (with_output "known_connections.json")
              psutil_now snapshot_later _ nothing eq_refl eq_refl)
    as [t [w' [E [_ C]]]].
  exists t, w'. split; [exact E | exact C].
Defined.

Lemma second_pass_is_quiet_witness :
  net_connections psutil_now = Ok [listening; established; lingering; guarded]
  /\ exists t1 w1 t2 w2,
       tick default_arguments psutil_now (PDict []) nothing = (Ok t1, w1)
       /\ tick default_arguments psutil_now (tick_known t1) w1 = (Ok t2, w2)
       /\ tick_new t2 = [].
Proof.
  split; [reflexivity|].
  destruct (second_pass_is_quiet default_arguments psutil_now [] _ nothing
              eq_refl) as [t1 [w1 [t2 [w2 [E1 [E2 [N _]]]]]]].
  exists t1, w1, t2, w2. repeat split; assumption.
Defined.

Lemma tick_needs_a_mapping_witness :
  is_mapping (PList [PInt 1; PInt 2]) = false
  /\ exists e w',
       tick default_arguments psutil_now (PList [PInt 1; PInt 2]) listed
       = (Raise (Exception e), w')
       /\ fs_lookup "known_connections.json" (fs w')
          = fs_lookup "known_connections.json" (fs listed).
Proof.
  split; [reflexivity|].
  destruct (tick_needs_a_mapping default_arguments psutil_now
              (PList [PInt 1; PInt 2]) _ listed eq_refl eq_refl)
    as [e [w' [E [_ F]]]].
  exists e, w'. split; [exact E|]. apply F. discriminate.
Defined.

Lemma default_arguments_sleep : sleeps default_arguments.
Proof. unfold sleeps. cbn. lia. Qed.

Lemma listing_failure_stops_loop_witness :
  sleeps default_arguments
  /\ net_connections psutil_down = Raise AccessDenied
  /\ exists passes w',
       polling_loop default_arguments
         ([psutil_now] ++ psutil_down :: [psutil_later])%list (PDict [])
         nothing
       = (passes, (Raise (Exception AccessDenied), w'))
       /\ length passes = 1%nat.
Proof.
  split; [exact default_arguments_sleep|]. split; [reflexivity|].
  destruct (listing_failure_stops_loop default_arguments [psutil_now]
              [psutil_later] psutil_down AccessDenied [] nothing
              default_arguments_sleep)
    as [passes [w' [E [_ L]]]].
  - constructor; [eexists; reflexivity | constructor].
  - reflexivity.
  - exists passes, w'. split; [exact E | exact L].
Defined.

Lemma first_run_persists_all_snapshots_witness :
  sleeps default_arguments
  /\ fs_lookup (arg_file default_arguments) (fs nothing) = None
  /\ exists w',
       main default_arguments [psutil_now; psutil_later] nothing = (Ok tt, w')
       /\ file_content "known_connections.json" (fs w')
          = Some (json_dumps
                    (PDict (known_after [] [psutil_now; psutil_later]))).
Proof.
  split; [exact default_arguments_sleep|]. split; [reflexivity|].
  destruct (first_run_persists_all_snapshots default_arguments
              [psutil_now; psutil_later] nothing default_arguments_sleep
              eq_refl)
    as [w' [earlier [E [C _]]]].
  - repeat constructor; eexists; reflexivity.
  - discriminate.
  - exists w'. split; [exact E | exact C].
Defined.

Lemma negative_interval_ends_run_witness :
  arg_interval hasty < 0
  /\ (exists t w',
        polling_loop hasty [psutil_now; psutil_later] (PDict []) nothing
        = ([(PDict [], t)], (Raise (Exception ValueError), w'))
        /\ tick_current t = snapshot_now)
  /\ (exists w' earlier,
        main hasty [psutil_now; psutil_later] nothing = (Ok tt, w')
        /\ file_content "known_connections.json" (fs w')
           = Some (json_dumps (PDict (known_after [] [psutil_now])))
        /\ log w' = (earlier ++ [(ERROR, MsgUnexpected ValueError);
                                 (INFO, MsgTerminated)])%list).
Proof.
  split; [reflexivity|].
  destruct (negative_interval_ends_run hasty psutil_now [psutil_later]
              _ nothing eq_refl eq_refl) as [L M].
  split.
  - destruct (L [] nothing) as [t [w' [e [E [P Ee]]]]].
    exists t, w'.
    assert (V : e = ValueError /\ tick_current t = snapshot_now).
    { pose proof P as C. vm_compute in C. inversion C. split; reflexivity. }
    destruct V as [-> Cur]. split; [exact P | exact Cur].
  - destruct (M eq_refl) as [w' [earlier [e [E [Ee [C Lg]]]]]].
    exists w', earlier.
    assert (V : e = ValueError).
    { pose proof E as X. vm_compute in X. inversion X as [Y]. clear X.
      rewrite <- Y in Lg. cbn [log] in Lg.
      apply (f_equal (@List.rev _)) in Lg.
      rewrite List.rev_app_distr in Lg. cbn in Lg.
      inversion Lg. reflexivity. }
    subst e. split; [exact E|]. split; [exact C | exact Lg].
Defined.

(* ================================================================= *)
(** ** More on the saved file, with the reference codec *)

Lemma dict_set_In (k q : pykey) (v x : pyval) (d : pydict) :
  In (k, v) (dict_set q x d) -> In (k, v) d \/ (k, v) = (q, x).
Proof.
  induction d as [|[a b] d IH]; simpl.
  - intros [H|[]]. right. congruence.
  - destruct (pykey_eqb q a) eqn:Q; simpl.
    + apply pykey_eqb_eq in Q. subst a.
      intros [H|H]; [right; congruence | left; now right].
    + intros [H|H]; [left; now left|].
      destruct (IH H); [left; now right | now right].
Qed.

Lemma distinct_keys_wf (d : pydict) : distinct_keys d = true <-> dict_wf d.
Proof.
  unfold dict_wf. induction d as [|[k v] d IH]; simpl.
  - split; [constructor | reflexivity].
  - rewrite andb_true_iff, negb_true_iff, IH, dict_mem_false, dict_get_None.
    split.
    + intros [H1 H2]. now constructor.
    + intros H. inversion H. tauto.
Qed.

Lemma filter_all {A} (f : A -> bool) (l : list A) :
  (forall x, In x l -> f x = true) -> filter f l = l.
Proof.
  induction l as [|a l IH]; simpl; intros H; [reflexivity|].
  rewrite (H a) by now left. f_equal. apply IH. intros x I. apply H.
  now right.
Qed.

Module RefJsonMore.
Import RefJson RefJsonFacts.

Lemma image_fold_native (d acc : pydict) :
  distinct_keys d = true ->
  Forall (fun kv => (exists s, fst kv = KStr s) /\ image (snd kv) = snd kv)
    d ->
  (forall k, In k (dict_keys d) -> dict_get k acc = None) ->
  fold_left image_step d acc = (acc ++ d)%list.
Proof.
  intros D F. revert acc D.
  induction F as [|[k x] d [[s K] I] _ IH]; intros acc D A.
  - now rewrite List.app_nil_r.
  - simpl in K, I. subst k. cbn [fold_left]. unfold image_step at 2.
    cbn [fst snd key_text]. rewrite I.
    simpl in D. apply andb_true_iff in D. destruct D as [D1 D2].
    apply negb_true_iff, dict_mem_false in D1.
    rewrite dict_set_fresh by (apply A; now left).
    rewrite IH; [now rewrite <- List.app_assoc | exact D2 |].
    intros q Q. rewrite <- dict_set_fresh by (apply A; now left).
    rewrite dict_get_set.
    destruct (pykey_eqb q (KStr s)) eqn:E; [|apply A; now right].
    apply pykey_eqb_eq in E. subst q. apply dict_get_None in D1.
    contradiction.
Qed.

(** A value with string keys only, each once, is its own image. *)
Lemma image_of_native (v : pyval) : json_native v = true -> image v = v.
Proof.
  induction v as [| | | |l IH|d IH] using pyval_induction; try reflexivity.
  - cbn [json_native image]. intros N. f_equal.
    induction IH as [|x l Hx _ IHl]; [reflexivity|].
    simpl in N. apply andb_true_iff in N. destruct N as [N1 N2].
    simpl. now rewrite Hx, IHl.
  - cbn [json_native]. intros N. apply andb_true_iff in N.
    destruct N as [N1 N2].
    change (image (PDict d)) with (PDict (fold_left image_step d [])).
    f_equal. rewrite image_fold_native; [reflexivity | exact N1 | | auto].
    clear N1. induction IH as [|[k x] d Hx _ IHd]; constructor.
    + simpl in N2 |- *. destruct k; [discriminate|].
      apply andb_true_iff in N2. destruct N2 as [N2 _]. split; eauto.
    + apply IHd. simpl in N2. apply andb_true_iff in N2. tauto.
Qed.

Lemma image_fold_shape (d acc : pydict) :
  Forall (fun kv => json_native (image (snd kv)) = true) d ->
  dict_wf acc ->
  (forall k x, In (k, x) acc ->
               (exists s, k = KStr s) /\ json_native x = true) ->
  dict_wf (fold_left image_step d acc)
  /\ forall k x, In (k, x) (fold_left image_step d acc) ->
                 (exists s, k = KStr s) /\ json_native x = true.
Proof.
  intros F. revert acc. induction F as [|[k x] d Hx _ IH]; intros acc W A.
  - split; assumption.
  - cbn [fold_left]. apply IH.
    + now apply dict_wf_set.
    + intros q y I. unfold image_step in I. apply dict_set_In in I.
      destruct I as [I|I]; [now apply A|].
      inversion I. split; [eauto | exact Hx].
Qed.

(** What is read back is a value with string keys only, each once. *)
Lemma image_is_native (v : pyval) : json_native (image v) = true.
Proof.
  induction v as [| | | |l IH|d IH] using pyval_induction; try reflexivity.
  - cbn [image json_native].
    induction IH as [|x l Hx _ IHl]; [reflexivity|].
    simpl. now rewrite Hx, IHl.
  - change (image (PDict d)) with (PDict (fold_left image_step d [])).
    destruct (image_fold_shape d [] IH) as [W A].
    { constructor. }
    { intros k x []. }
    cbn [json_native]. apply andb_true_iff. split.
    + now apply distinct_keys_wf.
    + apply forallb_forall. intros [k x] I.
      destruct (A k x I) as [[s ->] N]. exact N.
Qed.

Lemma image_idempotent (v : pyval) : image (image v) = image v.
Proof. apply image_of_native, image_is_native. Qed.

End RefJsonMore.

Section ReloadMore.
Context {RT : PyRuntime}.

(** The worlds of a save and the load that follows it, on a path that can
    be created, or rewritten and read. *)
Lemma save_then_load_world (m : pyval) (file_path : string) (w : world) :
  fs_lookup file_path (fs w) = None
  \/ (exists c, fs_lookup file_path (fs w) = Some (File c true true)) ->
  let w1 := mkWorld (fs_store file_path (File (json_dumps m) true true) (fs w))
              (log w) in
  save_known_connections m file_path w = (Ok tt, w1)
  /\ load_known_connections file_path w1 = (Ok (RefJson.image m), w1)
  /\ fs_lookup file_path (fs w1) = Some (File (json_dumps m) true true).
Proof.
  intros F w1.
  assert (L : fs_lookup file_path (fs w1)
              = Some (File (json_dumps m) true true)).
  { unfold w1. cbn [fs]. now rewrite fs_lookup_store, String.eqb_refl. }
  split; [|split; [|exact L]].
  - unfold save_known_connections. run_m. unfold write_file.
    destruct F as [F|[c F]]; rewrite F; reflexivity.
  - rewrite load_outcome, L.
    change (json_loads (json_dumps m)) with (RefJson.loads (RefJson.dumps m)).
    now rewrite RefJsonFacts.loads_dumps.
Qed.

(** X15. A mapping as a JSON text gives it (string keys, each once, at every
    depth) comes back from the file as it was saved. *)
Theorem reload_of_json_native (m : pyval) (file_path : string) (w : world) :
  json_native m = true ->
  fs_lookup file_path (fs w) = None
  \/ (exists c, fs_lookup file_path (fs w) = Some (File c true true)) ->
  exists w1 w2,
    save_known_connections m file_path w = (Ok tt, w1)
    /\ load_known_connections file_path w1 = (Ok m, w2).
Proof.
  intros N F. destruct (save_then_load_world m file_path w F) as [S [L _]].
  do 2 eexists. split; [exact S|].
  rewrite L, (RefJsonMore.image_of_native m N). reflexivity.
Qed.

(** X16. Whatever is saved, what is loaded from the file survives another save
    and load unchanged: the keys change on the first reload only. *)
Theorem second_reload_is_exact (m : pyval) (file_path : string) (w : world) :
  fs_lookup file_path (fs w) = None
  \/ (exists c, fs_lookup file_path (fs w) = Some (File c true true)) ->
  exists w1 loaded w2 w3 w4,
    save_known_connections m file_path w = (Ok tt, w1)
    /\ load_known_connections file_path w1 = (Ok loaded, w2)
    /\ save_known_connections loaded file_path w2 = (Ok tt, w3)
    /\ load_known_connections file_path w3 = (Ok loaded, w4).
Proof.
  intros F. destruct (save_then_load_world m file_path w F) as [S [L K]].
  destruct (save_then_load_world (RefJson.image m) file_path _
              (or_intror (ex_intro _ _ K))) as [S' [L' _]].
  do 5 eexists. split; [exact S|]. split; [exact L|].
  split; [exact S'|]. rewrite L', RefJsonMore.image_idempotent.
  reflexivity.
Qed.

(** X17. After a restart every connection is new: whatever mapping was saved,
    a pass that starts from the mapping loaded from the file reports the
    whole snapshot, the connections saved among them. *)
Theorem restart_reports_every_connection
    (args : arguments) (os : psutil_view) (conns : list sconn)
    (saved : pydict) (w : world) :
  fs_lookup (arg_file args) (fs w) = None
  \/ (exists c, fs_lookup (arg_file args) (fs w) = Some (File c true true)) ->
  net_connections os = Ok conns ->
  exists w1 loaded w2 t w3,
    save_known_connections (PDict saved) (arg_file args) w = (Ok tt, w1)
    /\ load_known_connections (arg_file args) w1 = (Ok loaded, w2)
    /\ tick args os loaded w2 = (Ok t, w3)
    /\ tick_new t = tick_current t.
Proof.
  intros F N.
  destruct (save_then_load_world (PDict saved) (arg_file args) w F)
    as [S [L _]].
  change (RefJson.image (PDict saved))
    with (PDict (fold_left RefJson.image_step saved [])) in L.
  destruct (tick_dict args os (fold_left RefJson.image_step saved []) conns
              (mkWorld
                 (fs_store (arg_file args)
                    (File (json_dumps (PDict saved)) true true) (fs w))
                 (log w)) N) as [u1 [u2 [w3 [E _]]]].
  do 5 eexists. split; [exact S|]. split; [exact L|]. split; [exact E|].
  cbn [tick_new tick_current]. unfold new_entries. apply filter_all.
  intros [k v] I. cbn [fst]. apply negb_true_iff, dict_mem_false.
  destruct (fold_add_item_int_keys os conns [] (fun k (H : In k []) =>
              match H with end) k) as [h ->].
  - change k with (fst (k, v)). now apply in_map.
  - now apply image_step_keys.
Qed.

End ReloadMore.

Lemma reload_of_json_native_witness :
  json_native (PDict [(KStr "836384063996612202", PNone)]) = true
  /\ exists w1 w2,
       save_known_connections (PDict [(KStr "836384063996612202", PNone)])
         "known_connections.json" nothing = (Ok tt, w1)
       /\ load_known_connections "known_connections.json" w1
          = (Ok (PDict [(KStr "836384063996612202", PNone)]), w2).
Proof.
  split; [reflexivity|].
  apply (reload_of_json_native (PDict [(KStr "836384063996612202", PNone)])
           "known_connections.json" nothing eq_refl).
  now left.
Defined.

Lemma second_reload_is_exact_witness :
  fs_lookup "known_connections.json" (fs nothing) = None
  /\ exists w1 loaded w2 w3 w4,
       save_known_connections (PDict snapshot_now) "known_connections.json"
         nothing = (Ok tt, w1)
       /\ load_known_connections "known_connections.json" w1
          = (Ok loaded, w2)
       /\ save_known_connections loaded "known_connections.json" w2
          = (Ok tt, w3)
       /\ load_known_connections "known_connections.json" w3
          = (Ok loaded, w4).
Proof.
  split; [reflexivity|].
  apply (second_reload_is_exact (PDict snapshot_now) "known_connections.json"
           nothing).
  now left.
Defined.

Lemma restart_reports_every_connection_witness :
  net_connections psutil_now = Ok [listening; established; lingering; guarded]
  /\ exists w1 loaded w2 t w3,
       save_known_connections (PDict snapshot_now) "known_connections.json"
         nothing = (Ok tt, w1)
       /\ load_known_connections "known_connections.json" w1
          = (Ok loaded, w2)
       /\ tick default_arguments psutil_now loaded w2 = (Ok t, w3)
       /\ tick_new t = tick_current t.
Proof.
  split; [reflexivity|].
  apply (restart_reports_every_connection default_arguments psutil_now
           [listening; established; lingering; guarded] snapshot_now nothing).
  - now left.
  - reflexivity.
Defined.
